(** * Asteroid impact digital twin: the impact model and its mitigations

    A shallow embedding of [simulation.py] (the impact-physics functions and
    the three mitigation operators), with the properties the specification
    states about them.

    Number model.  A Python float is modelled as the real number it stands
    for, in [R]; [math.pi] is the double it is, [884279719003555 / 2^48].
    What Python raises is kept: [x ** y] with a negative base and a
    fractional exponent is a complex number and comparing a complex number
    raises [TypeError]; [x ** 2] and [x ** 3] raise [OverflowError] when the
    power is too large for a double, and so does the conversion of an [int]
    that is too large; [math.sqrt] of a negative number raises [ValueError];
    dividing by zero raises [ZeroDivisionError].
    What the model leaves out is the rounding of each operation, with its
    two extremes: a product that overflows silently to infinity (and the NaN
    that may follow), and a result that underflows to zero.  Statements that
    depend on them are made for inputs of ordinary size ([ordinary_input]),
    or with a margin; the one place where underflow decides a branch is
    computed in binary64 ([estimate_damage_radii_b64]).

    The presentation helpers of [utils.py] and the run block of [app.py]
    are embedded as well: dictionaries are association lists in insertion
    order, a failed lookup ([KeyError]) is [None], and a folium map is the
    list of the layers added to it.  Formatting a float as text is not
    modelled: a popup carries the values its text is built from. *)

From Stdlib Require Import PrimFloat.
From Stdlib Require Import Reals Lra Lia ZArith String List.
Import ListNotations.

Local Open Scope R_scope.

(** ** Exceptions and fallible results *)

Inductive exn : Set :=
| TypeError
| ValueError
| ZeroDivisionError
| OverflowError.

Inductive result (A : Type) : Type :=
| Ok (a : A)
| Raise (e : exn).

Arguments Ok {A} a.
Arguments Raise {A} e.

Definition bind {A B : Type} (c : result A) (k : A -> result B) : result B :=
  match c with
  | Ok a => k a
  | Raise e => Raise e
  end.

Notation "x <- c ;; k" := (bind c (fun x => k))
  (at level 61, c at next level, right associativity).

(** ** Python numbers: a float, or the complex value of a fractional power
       of a negative float *)

Inductive number : Type :=
| Float (x : R)
| Complex.

(** [a * b]: a product with a complex factor is complex. *)
Definition nmul (a b : number) : number :=
  match a, b with
  | Float x, Float y => Float (x * y)
  | _, _ => Complex
  end.

Infix "*n" := nmul (at level 40, left associativity).

(** [x ** y] for the exponents the source uses with a float base, [0.25],
    [1/3] and [1/9]: positive and not an integer.  A positive base gives
    [exp (y * ln x)], [0.0 ** y] is [0.0], and a negative base gives a
    complex number. *)
Definition float_pow (x y : R) : number :=
  if Rlt_dec 0 x then Float (Rpower x y)
  else if Rlt_dec x 0 then Complex
  else Float 0.

(** A real of this magnitude or more does not round to a finite double:
    [2^1024 - 2^970], half a unit in the last place above the largest
    double. *)
Definition DBL_OVERFLOW_Z : Z := 2 ^ 1024 - 2 ^ 970.
Definition DBL_OVERFLOW : R := IZR DBL_OVERFLOW_Z.

(** [x ** n] for a float base and the [int] exponents of the source, 2 and
    3: [OverflowError] when the power is out of range. *)
Definition float_pow_int (x : R) (n : nat) : result R :=
  if Rle_dec DBL_OVERFLOW (Rabs (x ^ n)) then Raise OverflowError
  else Ok (x ^ n).

(** The conversion of an [int] to a float, as [math.sqrt] and [**] do it. *)
Definition float_of_int (n : Z) : result R :=
  if (DBL_OVERFLOW_Z <=? Z.abs n)%Z then Raise OverflowError
  else Ok (IZR n).

(** [max(a, b)] with a float [a]: [b > a] raises [TypeError] when [b] is
    complex. *)
Definition py_max (a : R) (b : number) : result R :=
  match b with
  | Float y => Ok (Rmax a y)
  | Complex => Raise TypeError
  end.

(** [a / b] on floats. *)
Definition float_div (a b : R) : result R :=
  if Req_dec_T b 0 then Raise ZeroDivisionError else Ok (a / b).

(** [math.sqrt], [math.pi], [math.radians]. *)
Definition math_sqrt (x : R) : result R :=
  if Rlt_dec x 0 then Raise ValueError else Ok (sqrt x).

Definition math_pi : R := 884279719003555 / 2 ^ 48.

Definition math_radians (deg : R) : R := deg * (math_pi / 180).

(** ** Data model: the dictionaries of [simulate_impact] *)

(** The ['input'] dictionary; [lat] and [lon] may be [None]. *)
Record ImpactInput : Type := {
  diameter_m : R;
  velocity_m_s : R;
  density_kg_m3 : R;
  impact_angle_deg : R;
  lat : option R;
  lon : option R
}.

(** The dictionaries keyed by damage zone: ['lethal_m'], ['severe_m'],
    ['moderate_m'], in this order. *)
Record Zones : Type := {
  lethal_m : R;
  severe_m : R;
  moderate_m : R
}.

(** [{k: f(v) for k, v in d.items()}] *)
Definition zones_map (f : R -> R) (d : Zones) : Zones :=
  {| lethal_m := f (lethal_m d);
     severe_m := f (severe_m d);
     moderate_m := f (moderate_m d) |}.

(** The dictionary [out] that [simulate_impact] returns. *)
Record ImpactResult : Type := {
  res_input : ImpactInput;
  res_mass_kg : R;
  res_energy_joules : R;
  res_energy_megatons : R;
  res_crater_diameter_m : R;
  res_damage_radii_m : Zones;
  res_affected_areas_km2 : Zones
}.

(** ** The impact model *)

Definition JOULES_PER_MEGATON_TNT : R := 4184 * 10 ^ 12.

Definition mass_from_diameter (diameter_m density_kg_m3 : R) : result R :=
  let r := diameter_m / 2 in
  r3 <- float_pow_int r 3 ;;
  let volume := (4 / 3) * math_pi * r3 in
  Ok (density_kg_m3 * volume).

Definition kinetic_energy_joules (mass_kg velocity_m_s : R) : result R :=
  v2 <- float_pow_int velocity_m_s 2 ;;
  Ok ((5 / 10) * mass_kg * v2).

Definition energy_megatons (energy_joules : R) : R :=
  energy_joules / JOULES_PER_MEGATON_TNT.

(** The tuned coefficient [C = 0.035] and the default target density. *)
Definition C : R := 35 / 1000.
Definition default_density_target : R := 2500.

Definition estimate_crater_diameter
    (energy_joules density_impactor density_target impact_angle_deg : R)
    : result R :=
  let E := energy_joules in
  let angle_factor := float_pow (sin (math_radians impact_angle_deg)) (1 / 3) in
  ratio <- float_div density_impactor density_target ;;
  let crater_diameter_m :=
    Float C *n float_pow E (25 / 100) *n angle_factor *n float_pow ratio (1 / 9) in
  py_max 1 crater_diameter_m.

Definition estimate_damage_radii (energy_joules : R) : result Zones :=
  let E_mt := energy_megatons energy_joules in
  if Rle_dec E_mt 0 then
    Ok {| lethal_m := 0; severe_m := 0; moderate_m := 0 |}
  else
    let lethal := Float 1000 *n float_pow E_mt (1 / 3) in
    let severe := Float 2000 *n float_pow E_mt (1 / 3) *n Float (6 / 10) in
    let moderate := Float 3000 *n float_pow E_mt (1 / 3) *n Float (12 / 10) in
    l <- py_max 5 lethal ;;
    s <- py_max 10 severe ;;
    m <- py_max 20 moderate ;;
    Ok {| lethal_m := l; severe_m := s; moderate_m := m |}.

Definition area_from_radius_m (radius_m : R) : R :=
  let area_m2 := math_pi * radius_m ^ 2 in
  area_m2 / 10 ^ 6.

Definition simulate_impact
    (diameter_m velocity_m_s density_kg_m3 impact_angle_deg : R)
    (lat lon : option R) : result ImpactResult :=
  m <- mass_from_diameter diameter_m density_kg_m3 ;;
  E <- kinetic_energy_joules m velocity_m_s ;;
  let E_mt := energy_megatons E in
  crater_d <- estimate_crater_diameter E density_kg_m3 default_density_target
                impact_angle_deg ;;
  damage_radii <- estimate_damage_radii E ;;
  let areas_km2 := zones_map area_from_radius_m damage_radii in
  Ok {| res_input :=
          {| diameter_m := diameter_m;
             velocity_m_s := velocity_m_s;
             density_kg_m3 := density_kg_m3;
             impact_angle_deg := impact_angle_deg;
             lat := lat;
             lon := lon |};
        res_mass_kg := m;
        res_energy_joules := E;
        res_energy_megatons := E_mt;
        res_crater_diameter_m := crater_d;
        res_damage_radii_m := damage_radii;
        res_affected_areas_km2 := areas_km2 |}.

(** [simulate_impact] on the fields of an ['input'] dictionary. *)
Definition simulate_input (inp : ImpactInput) : result ImpactResult :=
  simulate_impact (diameter_m inp) (velocity_m_s inp) (density_kg_m3 inp)
    (impact_angle_deg inp) (lat inp) (lon inp).

(** ** Mitigation *)

Definition apply_kinetic_impactor (sim_result : ImpactResult)
    (velocity_reduction_pct : R) : result ImpactResult :=
  let inp := res_input sim_result in
  let new_velocity := velocity_m_s inp * (1 - velocity_reduction_pct / 100) in
  simulate_impact (diameter_m inp) new_velocity (density_kg_m3 inp)
    (impact_angle_deg inp) (lat inp) (lon inp).

Definition apply_nuclear_deflection (sim_result : ImpactResult)
    (energy_reduction_pct : R) : result ImpactResult :=
  let inp := res_input sim_result in
  let reduction := energy_reduction_pct / 100 in
  factor <- math_sqrt (Rmax 0 (1 - reduction)) ;;
  let new_velocity := velocity_m_s inp * factor in
  simulate_impact (diameter_m inp) new_velocity (density_kg_m3 inp)
    (impact_angle_deg inp) (lat inp) (lon inp).

(** [fragment_count] is an [int]: [math.sqrt] converts it to a float, which
    raises [OverflowError] for a count too large for a double, and raises
    [ValueError] on a negative one; [1.0 / 0.0] raises on zero.
    [fragment_count ** (1/3)] converts the count again and is reached only
    for a positive count. *)
Definition apply_fragmentation (sim_result : ImpactResult)
    (fragment_count : Z) : result ImpactResult :=
  let inp := res_input sim_result in
  count <- float_of_int fragment_count ;;
  root <- math_sqrt count ;;
  factor <- float_div 1 root ;;
  let new_velocity := velocity_m_s inp * factor in
  base <- float_of_int fragment_count ;;
  match float_pow base (1 / 3) with
  | Float cube_root =>
      new_diameter <- float_div (diameter_m inp) cube_root ;;
      simulate_impact new_diameter new_velocity (density_kg_m3 inp)
        (impact_angle_deg inp) (lat inp) (lon inp)
  | Complex => Raise TypeError
  end.

(** ** The zero-energy branch in binary64

    [estimate_damage_radii] on doubles, with IEEE 754 division and
    comparison.  C's [pow], which IEEE 754 does not fix, is a parameter;
    [0x1.3333333333333p-1] and [0x1.3333333333333p+0] are the doubles of
    [0.6] and [1.2]. *)

Definition energy_megatons_b64 (energy_joules : float) : float :=
  PrimFloat.div energy_joules 4184000000000000%float.

(** [max(a, b)] on floats: [b] when [b > a], else [a]. *)
Definition max_b64 (a b : float) : float :=
  if PrimFloat.ltb a b then b else a.

Definition estimate_damage_radii_b64 (pow : float -> float -> float)
    (energy_joules : float) : float * float * float :=
  let E_mt := energy_megatons_b64 energy_joules in
  if PrimFloat.leb E_mt 0%float then (0%float, 0%float, 0%float)
  else
    let third := PrimFloat.div 1%float 3%float in
    let lethal_m := PrimFloat.mul 1000%float (pow E_mt third) in
    let severe_m :=
      PrimFloat.mul (PrimFloat.mul 2000%float (pow E_mt third))
        0x1.3333333333333p-1%float in
    let moderate_m :=
      PrimFloat.mul (PrimFloat.mul 3000%float (pow E_mt third))
        0x1.3333333333333p+0%float in
    (max_b64 5%float lethal_m, max_b64 10%float severe_m,
     max_b64 20%float moderate_m).

(** ** Dictionaries with string keys ([utils.py], [app.py]) *)

Local Open Scope string_scope.

(** A Python [dict] in insertion order. *)
Definition dict (V : Type) : Type := list (string * V).

(** [d[k]]; [None] stands for [KeyError]. *)
Fixpoint dict_get {V : Type} (d : dict V) (k : string) : option V :=
  match d with
  | [] => None
  | (k', v) :: d' => if String.eqb k k' then Some v else dict_get d' k
  end.

(** [d[k] = v]: an existing key keeps its place, a new one goes last. *)
Fixpoint dict_set {V : Type} (d : dict V) (k : string) (v : V) : dict V :=
  match d with
  | [] => [(k, v)]
  | (k', v') :: d' =>
      if String.eqb k k' then (k, v) :: d' else (k', v') :: dict_set d' k v
  end.

(** [d.update(items)] *)
Definition dict_update {V : Type} (d items : dict V) : dict V :=
  fold_left (fun acc kv => dict_set acc (fst kv) (snd kv)) items d.

Definition dict_keys {V : Type} (d : dict V) : list string := map fst d.

(** The zone dictionaries as Python sees them: [d.items()]. *)
Definition zones_items (z : Zones) : dict R :=
  [("lethal_m", lethal_m z); ("severe_m", severe_m z);
   ("moderate_m", moderate_m z)].

(** ** Population estimate ([utils.py]) *)

Definition SAMPLE_COUNTRY_DENSITY : dict R :=
  [("default", 60); ("India", 464); ("USA", 36); ("China", 153);
   ("Brazil", 25); ("Australia", 32 / 10)].

Definition estimate_population_affected (area_km2 : R)
    (population_density_per_km2 : option R) : option R :=
  match population_density_per_km2 with
  | None =>
      match dict_get SAMPLE_COUNTRY_DENSITY "default" with
      | Some density => Some (area_km2 * density)
      | None => None
      end
  | Some density => Some (area_km2 * density)
  end.

(** [{k: estimate_population_affected(areas[k], population_density)
      for k in areas}] of [app.py]. *)
Fixpoint population_by_zone_items (keys : list string) (areas : dict R)
    (population_density : option R) : option (dict R) :=
  match keys with
  | [] => Some []
  | k :: keys' =>
      match dict_get areas k with
      | None => None
      | Some area =>
          match estimate_population_affected area population_density with
          | None => None
          | Some people =>
              match population_by_zone_items keys' areas population_density with
              | None => None
              | Some rest => Some ((k, people) :: rest)
              end
          end
      end
  end.

Definition population_by_zone (sim_result : ImpactResult)
    (population_density : option R) : option (dict R) :=
  let areas := zones_items (res_affected_areas_km2 sim_result) in
  population_by_zone_items (dict_keys areas) areas population_density.

(** ** Table rows ([utils.py]) *)

(** A cell of a data frame: text, a float, or [None]. *)
Inductive cell : Type :=
| Text (s : string)
| Number (x : R)
| Missing.

(** [inp.get('lat')] *)
Definition cell_of_optional (x : option R) : cell :=
  match x with
  | Some v => Number v
  | None => Missing
  end.

(** The loop over [sim_result['damage_radii_m'].items()]. *)
Fixpoint add_zone_columns (row : dict cell) (items : dict R) (areas : dict R)
    : option (dict cell) :=
  match items with
  | [] => Some row
  | (k, v) :: items' =>
      let row := dict_set row (k ++ "_radius_m") (Number v) in
      match dict_get areas k with
      | None => None
      | Some area =>
          add_zone_columns (dict_set row (k ++ "_area_km2") (Number area))
            items' areas
      end
  end.

(** A data frame is the list of its rows; [results_to_dataframe] builds a
    frame of one row. *)
Definition DataFrame : Type := list (dict cell).

Definition results_to_dataframe (sim_result : ImpactResult) (label : string)
    : option DataFrame :=
  let row := dict_set [] "scenario" (Text label) in
  let inp := res_input sim_result in
  let row :=
    dict_update row
      [("diameter_m", Number (diameter_m inp));
       ("velocity_m_s", Number (velocity_m_s inp));
       ("density_kg_m3", Number (density_kg_m3 inp));
       ("impact_angle_deg", Number (impact_angle_deg inp));
       ("mass_kg", Number (res_mass_kg sim_result));
       ("energy_joules", Number (res_energy_joules sim_result));
       ("energy_megatons", Number (res_energy_megatons sim_result));
       ("crater_diameter_m", Number (res_crater_diameter_m sim_result))] in
  match add_zone_columns row (zones_items (res_damage_radii_m sim_result))
          (zones_items (res_affected_areas_km2 sim_result)) with
  | None => None
  | Some row =>
      let row := dict_set row "lat" (cell_of_optional (lat inp)) in
      let row := dict_set row "lon" (cell_of_optional (lon inp)) in
      Some [row]
  end.

(** ** The map ([utils.py]) *)

(** What a popup text is built from. *)
Inductive popup_text : Type :=
| ImpactPointPopup
| ZonePopup (zone : string) (radius_m : R)
| CraterPopup (crater_radius : R).

(** [folium.CircleMarker] and [folium.Circle], both with [fill=True]. *)
Inductive Layer : Type :=
| CircleMarker (location : R * R) (radius : R) (color fill_color : string)
    (popup : option popup_text)
| Circle (location : R * R) (radius : R) (color : string) (fill_opacity : R)
    (popup : option popup_text).

Record FoliumMap : Type := {
  map_location : R * R;
  map_tiles : string;
  map_zoom_start : Z;
  map_layers : list Layer
}.

Definition zone_colors : dict string :=
  [("lethal_m", "#800000"); ("severe_m", "#FF4500"); ("moderate_m", "#FFA500")].

(** [colors.get(zone, '#3388ff')] *)
Definition zone_color (zone : string) : string :=
  match dict_get zone_colors zone with
  | Some c => c
  | None => "#3388ff"
  end.

Definition create_folium_map (sim_result : ImpactResult) (map_tiles : string)
    (popup : bool) : FoliumMap :=
  let '(lat, lon, zoom_start) :=
    match lat (res_input sim_result), lon (res_input sim_result) with
    | Some la, Some lo => (la, lo, 5%Z)
    | _, _ => (0, 0, 2%Z)
    end in
  let marker :=
    CircleMarker (lat, lon) 5 "black" "black"
      (if popup then Some ImpactPointPopup else None) in
  let zones :=
    map (fun item =>
           Circle (lat, lon) (snd item) (zone_color (fst item)) (25 / 100)
             (if popup then Some (ZonePopup (fst item) (snd item)) else None))
      (zones_items (res_damage_radii_m sim_result)) in
  let crater_radius := Rmax 1 (res_crater_diameter_m sim_result / 2) in
  let crater :=
    Circle (lat, lon) crater_radius "black" (6 / 10)
      (if popup then Some (CraterPopup crater_radius) else None) in
  {| map_location := (lat, lon);
     map_tiles := map_tiles;
     map_zoom_start := zoom_start;
     map_layers := (marker :: zones ++ [crater])%list |}.

Definition layer_location (l : Layer) : R * R :=
  match l with
  | CircleMarker location _ _ _ _ => location
  | Circle location _ _ _ _ => location
  end.

Definition layer_radius (l : Layer) : R :=
  match l with
  | CircleMarker _ radius _ _ _ => radius
  | Circle _ radius _ _ _ => radius
  end.

(** ** The run block ([app.py]) *)

(** What the script does when the button is pressed, as a function of the
    widget values: the velocity is given in km/s, the angle and the three
    mitigation parameters are integer sliders.  It returns [sim_before] and
    [sim_after]. *)
Definition run_simulation (diameter velocity density : R) (angle : Z)
    (lat lon : R) (mitigation_choice : string)
    (kin_reduce nuc_reduce frag_count : Z)
    : result (ImpactResult * option ImpactResult) :=
  let velocity_m_s := velocity * 1000 in
  sim_before <- simulate_impact diameter velocity_m_s density (IZR angle)
                  (Some lat) (Some lon) ;;
  if String.eqb mitigation_choice "None" then Ok (sim_before, None)
  else if String.eqb mitigation_choice "Kinetic Impactor (reduce velocity %)"
  then sim_after <- apply_kinetic_impactor sim_before (IZR kin_reduce) ;;
       Ok (sim_before, Some sim_after)
  else if String.eqb mitigation_choice "Nuclear (reduce energy %)"
  then sim_after <- apply_nuclear_deflection sim_before (IZR nuc_reduce) ;;
       Ok (sim_before, Some sim_after)
  else if String.eqb mitigation_choice "Fragmentation (split)"
  then sim_after <- apply_fragmentation sim_before frag_count ;;
       Ok (sim_before, Some sim_after)
  else Ok (sim_before, None).

Local Close Scope string_scope.

(** ** Vocabulary of the statements *)

(** The real power the crater and radius laws are written with: [x ^ y] for
    [x >= 0] and a positive exponent [y]. *)
Definition rpow (x y : R) : R :=
  if Rlt_dec 0 x then Rpower x y else 0.

(** The crater law in real arithmetic. *)
Definition crater_value (E density_impactor density_target angle_deg : R) : R :=
  Rmax 1
    (C * rpow E (25 / 100) * rpow (sin (math_radians angle_deg)) (1 / 3)
       * rpow (density_impactor / density_target) (1 / 9)).

(** The three radii in real arithmetic. *)
Definition damage_radii_value (E : R) : Zones :=
  let E_mt := energy_megatons E in
  if Rle_dec E_mt 0 then
    {| lethal_m := 0; severe_m := 0; moderate_m := 0 |}
  else
    {| lethal_m := Rmax 5 (1000 * Rpower E_mt (1 / 3));
       severe_m := Rmax 10 (2000 * Rpower E_mt (1 / 3) * (6 / 10));
       moderate_m := Rmax 20 (3000 * Rpower E_mt (1 / 3) * (12 / 10)) |}.

(** The mass and the energy of an impactor, as [simulate_impact] computes
    them when no power overflows. *)
Definition sphere_mass (diameter_m density_kg_m3 : R) : R :=
  density_kg_m3 * ((4 / 3) * math_pi * (diameter_m / 2) ^ 3).

Definition impact_energy (diameter_m velocity_m_s density_kg_m3 : R) : R :=
  (5 / 10) * sphere_mass diameter_m density_kg_m3 * velocity_m_s ^ 2.

(** The dictionary [simulate_impact] builds when no exception is raised. *)
Definition impact_record
    (diameter_m velocity_m_s density_kg_m3 impact_angle_deg : R)
    (lat lon : option R) : ImpactResult :=
  let E := impact_energy diameter_m velocity_m_s density_kg_m3 in
  {| res_input :=
       {| diameter_m := diameter_m;
          velocity_m_s := velocity_m_s;
          density_kg_m3 := density_kg_m3;
          impact_angle_deg := impact_angle_deg;
          lat := lat;
          lon := lon |};
     res_mass_kg := sphere_mass diameter_m density_kg_m3;
     res_energy_joules := E;
     res_energy_megatons := energy_megatons E;
     res_crater_diameter_m :=
       crater_value E density_kg_m3 default_density_target impact_angle_deg;
     res_damage_radii_m := damage_radii_value E;
     res_affected_areas_km2 :=
       zones_map area_from_radius_m (damage_radii_value E) |}.

(** The crater estimate is a float exactly when no power is complex. *)
Definition crater_defined (E density_impactor angle_deg : R) : Prop :=
  0 <= E /\ 0 <= sin (math_radians angle_deg) /\ 0 <= density_impactor.

(** Neither [r ** 3] nor [velocity_m_s ** 2] overflows. *)
Definition powers_in_range (diameter_m velocity_m_s : R) : Prop :=
  Rabs ((diameter_m / 2) ^ 3) < DBL_OVERFLOW /\
  Rabs (velocity_m_s ^ 2) < DBL_OVERFLOW.

(** Inputs of ordinary size, inside the documented domain and far from the
    overflow and the underflow of a double: a diameter from a millimetre to
    10 000 km, a velocity from a millimetre per second to 10^9 m/s, a
    density from 1 to 10^6 kg/m3, an angle from a thousandth of a degree
    to 90 degrees. *)
Definition ordinary_input
    (diameter_m velocity_m_s density_kg_m3 impact_angle_deg : R) : Prop :=
  1 / 1000 <= diameter_m <= 10 ^ 7 /\
  1 / 1000 <= velocity_m_s <= 10 ^ 9 /\
  1 <= density_kg_m3 <= 10 ^ 6 /\
  1 / 1000 <= impact_angle_deg <= 90.

(** The same, for a stored ['input']. *)
Definition ordinary (inp : ImpactInput) : Prop :=
  ordinary_input (diameter_m inp) (velocity_m_s inp) (density_kg_m3 inp)
    (impact_angle_deg inp).

(** A positive float of normal size: not so small that operations on it
    lose precision, nor near overflow. *)
Definition normal_size (x : R) : Prop := 1 / 10 ^ 300 <= x <= 10 ^ 300.

(** The concrete scenario of the specification: a 50 m rocky body at
    20 km/s, 45 degrees, no location. *)
Definition reference_impact : ImpactResult :=
  impact_record 50 20000 3000 45 None None.

(** The ordering of the three zones. *)
Definition radii_ordered (z : Zones) : Prop :=
  lethal_m z <= severe_m z <= moderate_m z.

(** The radii of the zero-or-negative-energy branch. *)
Definition zero_radii : Zones :=
  {| lethal_m := 0; severe_m := 0; moderate_m := 0 |}.

(** A function applied to a result that was returned. *)
Definition result_map {A B : Type} (f : A -> B) (c : result A) : result B :=
  match c with
  | Ok a => Ok (f a)
  | Raise e => Raise e
  end.

(** Every numeric output of a result: mass, both energies, crater, the
    three radii and the three areas. *)
Definition numeric_outputs (r : ImpactResult) : R * R * R * R * Zones * Zones :=
  (res_mass_kg r, res_energy_joules r, res_energy_megatons r,
   res_crater_diameter_m r, res_damage_radii_m r, res_affected_areas_km2 r).

(** The fields no operator perturbs. *)
Definition same_site (i j : ImpactInput) : Prop :=
  lat j = lat i /\ lon j = lon i /\
  density_kg_m3 j = density_kg_m3 i /\
  impact_angle_deg j = impact_angle_deg i.

(** A prior that [simulate_impact] produced from its own stored input. *)
Definition simulated (prior : ImpactResult) : Prop :=
  simulate_input (res_input prior) = Ok prior.

(** Componentwise order of two zone dictionaries. *)
Definition zones_le (z1 z2 : Zones) : Prop :=
  lethal_m z1 <= lethal_m z2 /\ severe_m z1 <= severe_m z2 /\
  moderate_m z1 <= moderate_m z2.

(** ** Basic facts about the number model *)

Lemma float_pow_pos (x y : R) : 0 < x -> float_pow x y = Float (Rpower x y).
Proof.
  intros Hx. unfold float_pow.
  destruct (Rlt_dec 0 x) as [_ | Hn]; [reflexivity | contradiction].
Qed.

Lemma float_pow_neg (x y : R) : x < 0 -> float_pow x y = Complex.
Proof.
  intros Hx. unfold float_pow.
  destruct (Rlt_dec 0 x) as [H | _]; [lra |].
  destruct (Rlt_dec x 0) as [_ | H]; [reflexivity | contradiction].
Qed.

Lemma float_pow_nonneg (x y : R) : 0 <= x -> float_pow x y = Float (rpow x y).
Proof.
  intros Hx. unfold float_pow, rpow.
  destruct (Rlt_dec 0 x) as [_ | Hn]; [reflexivity |].
  destruct (Rlt_dec x 0) as [H | _]; [lra | reflexivity].
Qed.

Lemma float_pow_Float_inv (x y z : R) : float_pow x y = Float z -> 0 <= x.
Proof.
  intros H. destruct (Rlt_dec x 0) as [Hx | Hx]; [| lra].
  rewrite (float_pow_neg x y Hx) in H. discriminate.
Qed.

Lemma rpow_pos (x y : R) : 0 < x -> rpow x y = Rpower x y.
Proof.
  intros Hx. unfold rpow.
  destruct (Rlt_dec 0 x) as [_ | Hn]; [reflexivity | contradiction].
Qed.

Lemma rpow_zero (y : R) : rpow 0 y = 0.
Proof.
  unfold rpow. destruct (Rlt_dec 0 0) as [H | _]; [lra | reflexivity].
Qed.

Lemma Rpower_pos (x y : R) : 0 < Rpower x y.
Proof. unfold Rpower. apply exp_pos. Qed.

Lemma rpow_nonneg (x y : R) : 0 <= rpow x y.
Proof.
  unfold rpow. destruct (Rlt_dec 0 x); [| lra].
  left. apply Rpower_pos.
Qed.

(** [rpow] is monotone in its base, strictly so for a positive exponent. *)
Lemma rpow_le (x1 x2 y : R) : 0 <= y -> 0 <= x1 <= x2 -> rpow x1 y <= rpow x2 y.
Proof.
  intros Hy [H1 H12]. unfold rpow.
  destruct (Rlt_dec 0 x1) as [P1 | N1]; destruct (Rlt_dec 0 x2) as [P2 | N2].
  - apply Rle_Rpower_l; lra.
  - lra.
  - left. apply Rpower_pos.
  - lra.
Qed.

Lemma rpow_lt (x1 x2 y : R) : 0 < y -> 0 <= x1 < x2 -> rpow x1 y < rpow x2 y.
Proof.
  intros Hy [H1 H12]. unfold rpow.
  destruct (Rlt_dec 0 x1) as [P1 | N1]; destruct (Rlt_dec 0 x2) as [P2 | N2].
  - apply Rlt_Rpower_l; lra.
  - lra.
  - apply Rpower_pos.
  - lra.
Qed.

(** The cube root of a cube. *)
Lemma Rpower_cube_root (a : R) : 0 < a -> Rpower (a ^ 3) (1 / 3) = a.
Proof.
  intros Ha.
  rewrite <- (Rpower_pow 3 a Ha).
  rewrite Rpower_mult.
  replace (INR 3 * (1 / 3)) with 1 by (simpl; field).
  apply Rpower_1. exact Ha.
Qed.

Lemma Rpower_fourth_root (a : R) : 0 < a -> Rpower (a ^ 4) (25 / 100) = a.
Proof.
  intros Ha.
  rewrite <- (Rpower_pow 4 a Ha).
  rewrite Rpower_mult.
  replace (INR 4 * (25 / 100)) with 1 by (simpl; field).
  apply Rpower_1. exact Ha.
Qed.

Lemma Rpower_one_base (y : R) : Rpower 1 y = 1.
Proof. unfold Rpower. rewrite ln_1, Rmult_0_r. apply exp_0. Qed.

Lemma JOULES_PER_MEGATON_TNT_pos : 0 < JOULES_PER_MEGATON_TNT.
Proof. unfold JOULES_PER_MEGATON_TNT. lra. Qed.

Lemma math_sqrt_nonneg (x : R) : 0 <= x -> math_sqrt x = Ok (sqrt x).
Proof.
  intros Hx. unfold math_sqrt.
  destruct (Rlt_dec x 0) as [H | _]; [lra | reflexivity].
Qed.

Lemma float_div_nonzero (a b : R) : b <> 0 -> float_div a b = Ok (a / b).
Proof.
  intros Hb. unfold float_div.
  destruct (Req_dec_T b 0) as [H | _]; [contradiction | reflexivity].
Qed.

Lemma math_pi_bounds : 3 < math_pi < 4.
Proof. unfold math_pi. lra. Qed.

(** An angle in (0, 90] degrees has a positive sine. *)
Lemma sin_radians_pos (a : R) : 0 < a <= 90 -> 0 < sin (math_radians a).
Proof.
  intros [H0 H90]. unfold math_radians.
  pose proof math_pi_bounds as Hpi. pose proof PI2_1 as HPI.
  apply sin_gt_0; nra.
Qed.

Lemma sin_radians_zero : sin (math_radians 0) = 0.
Proof. unfold math_radians. rewrite Rmult_0_l. apply sin_0. Qed.

(** The overflow threshold lies between [10^300] and [2^1024]. *)
Lemma DBL_OVERFLOW_lower : 10 ^ 300 <= DBL_OVERFLOW.
Proof.
  unfold DBL_OVERFLOW. rewrite pow_IZR. apply IZR_le.
  apply Z.leb_le. vm_compute. reflexivity.
Qed.

Lemma DBL_OVERFLOW_upper : DBL_OVERFLOW <= 2 ^ 1024.
Proof.
  unfold DBL_OVERFLOW. rewrite pow_IZR. apply IZR_le.
  apply Z.leb_le. vm_compute. reflexivity.
Qed.

Lemma float_pow_int_in_range (x : R) (n : nat) :
  Rabs (x ^ n) < DBL_OVERFLOW -> float_pow_int x n = Ok (x ^ n).
Proof.
  intros H. unfold float_pow_int.
  destruct (Rle_dec DBL_OVERFLOW (Rabs (x ^ n))) as [Hle | _];
    [lra | reflexivity].
Qed.

Lemma float_pow_int_overflow (x : R) (n : nat) :
  DBL_OVERFLOW <= Rabs (x ^ n) -> float_pow_int x n = Raise OverflowError.
Proof.
  intros H. unfold float_pow_int.
  destruct (Rle_dec DBL_OVERFLOW (Rabs (x ^ n))) as [_ | Hn];
    [reflexivity | contradiction].
Qed.

Lemma float_pow_int_Ok_inv (x y : R) (n : nat) :
  float_pow_int x n = Ok y -> Rabs (x ^ n) < DBL_OVERFLOW /\ y = x ^ n.
Proof.
  unfold float_pow_int.
  destruct (Rle_dec DBL_OVERFLOW (Rabs (x ^ n))) as [Hle | Hlt];
    [discriminate |].
  intros H. injection H as <-. split; [lra | reflexivity].
Qed.

Lemma float_of_int_in_range (n : Z) :
  (Z.abs n < DBL_OVERFLOW_Z)%Z -> float_of_int n = Ok (IZR n).
Proof.
  intros H. unfold float_of_int.
  destruct (Z.leb_spec DBL_OVERFLOW_Z (Z.abs n)) as [Hle | _];
    [lia | reflexivity].
Qed.

Lemma float_of_int_overflow (n : Z) :
  (DBL_OVERFLOW_Z <= Z.abs n)%Z -> float_of_int n = Raise OverflowError.
Proof.
  intros H. unfold float_of_int.
  destruct (Z.leb_spec DBL_OVERFLOW_Z (Z.abs n)) as [_ | Hlt];
    [reflexivity | lia].
Qed.

(** ** What the impact model returns *)

Lemma estimate_crater_diameter_value (E rho rho_t a : R) :
  rho_t <> 0 -> 0 <= E -> 0 <= sin (math_radians a) -> 0 <= rho / rho_t ->
  estimate_crater_diameter E rho rho_t a = Ok (crater_value E rho rho_t a).
Proof.
  intros Ht HE Hs Hr. unfold estimate_crater_diameter, crater_value.
  rewrite (float_div_nonzero _ _ Ht). cbn [bind].
  rewrite (float_pow_nonneg _ _ HE), (float_pow_nonneg _ _ Hs),
    (float_pow_nonneg _ _ Hr).
  reflexivity.
Qed.

Lemma estimate_crater_diameter_Ok_inv (E rho rho_t a x : R) :
  estimate_crater_diameter E rho rho_t a = Ok x ->
  rho_t <> 0 /\ 0 <= E /\ 0 <= sin (math_radians a) /\ 0 <= rho / rho_t.
Proof.
  unfold estimate_crater_diameter, float_div.
  destruct (Req_dec_T rho_t 0) as [Ht | Ht]; cbn [bind]; [discriminate |].
  intros H. split; [exact Ht |].
  destruct (float_pow E (25 / 100)) as [e |] eqn:He;
    destruct (float_pow (sin (math_radians a)) (1 / 3)) as [s |] eqn:Hs;
    destruct (float_pow (rho / rho_t) (1 / 9)) as [q |] eqn:Hq;
    cbn in H; try discriminate.
  repeat split; eapply float_pow_Float_inv; eassumption.
Qed.

Lemma ratio_default_nonneg (rho : R) :
  0 <= rho / default_density_target <-> 0 <= rho.
Proof.
  unfold default_density_target. split; intros H; lra.
Qed.

Lemma default_density_target_nonzero : default_density_target <> 0.
Proof. unfold default_density_target. lra. Qed.

Lemma nmul_Complex_r (a : number) : a *n Complex = Complex.
Proof. destruct a; reflexivity. Qed.

(** Outside [crater_defined] a power is complex and [max] raises. *)
Lemma estimate_crater_diameter_complex (E rho a : R) :
  ~ crater_defined E rho a ->
  estimate_crater_diameter E rho default_density_target a = Raise TypeError.
Proof.
  intros Hn. unfold estimate_crater_diameter.
  rewrite (float_div_nonzero _ _ default_density_target_nonzero). cbn [bind].
  destruct (Rlt_dec E 0) as [HE | HE].
  { rewrite (float_pow_neg _ _ HE). cbn [nmul].
    reflexivity. }
  destruct (Rlt_dec (sin (math_radians a)) 0) as [Hs | Hs].
  { rewrite (float_pow_neg _ _ Hs), nmul_Complex_r. reflexivity. }
  destruct (Rlt_dec rho 0) as [Hr | Hr].
  { assert (Hq : rho / default_density_target < 0)
      by (unfold default_density_target; lra).
    rewrite (float_pow_neg _ _ Hq), nmul_Complex_r. reflexivity. }
  exfalso. apply Hn. unfold crater_defined. lra.
Qed.

(** [estimate_damage_radii] never raises. *)
Lemma estimate_damage_radii_value (E : R) :
  estimate_damage_radii E = Ok (damage_radii_value E).
Proof.
  unfold estimate_damage_radii, damage_radii_value.
  destruct (Rle_dec (energy_megatons E) 0) as [Hle | Hgt]; [reflexivity |].
  assert (Hpos : 0 < energy_megatons E) by lra.
  rewrite (float_pow_pos _ _ Hpos). reflexivity.
Qed.

Lemma mass_from_diameter_value (d rho : R) :
  Rabs ((d / 2) ^ 3) < DBL_OVERFLOW ->
  mass_from_diameter d rho = Ok (sphere_mass d rho).
Proof.
  intros H. unfold mass_from_diameter.
  rewrite (float_pow_int_in_range _ _ H). reflexivity.
Qed.

Lemma kinetic_energy_joules_value (m v : R) :
  Rabs (v ^ 2) < DBL_OVERFLOW ->
  kinetic_energy_joules m v = Ok ((5 / 10) * m * v ^ 2).
Proof.
  intros H. unfold kinetic_energy_joules.
  rewrite (float_pow_int_in_range _ _ H). reflexivity.
Qed.

(** [simulate_impact] returns [impact_record] exactly when no power
    overflows and the crater estimate is defined. *)
Lemma simulate_impact_value (d v rho a : R) (la lo : option R) :
  crater_defined (impact_energy d v rho) rho a ->
  powers_in_range d v ->
  simulate_impact d v rho a la lo = Ok (impact_record d v rho a la lo).
Proof.
  intros (HE & Hs & Hr) [Hd Hv]. unfold simulate_impact.
  rewrite (mass_from_diameter_value _ _ Hd). cbn [bind].
  rewrite (kinetic_energy_joules_value _ _ Hv). cbn [bind].
  fold (impact_energy d v rho).
  rewrite (estimate_crater_diameter_value _ _ _ _
             default_density_target_nonzero HE Hs
             (proj2 (ratio_default_nonneg rho) Hr)).
  cbn [bind]. rewrite estimate_damage_radii_value. reflexivity.
Qed.

Lemma simulate_impact_Ok_inv (d v rho a : R) (la lo : option R) (r : ImpactResult) :
  simulate_impact d v rho a la lo = Ok r ->
  crater_defined (impact_energy d v rho) rho a /\
  powers_in_range d v /\
  r = impact_record d v rho a la lo.
Proof.
  intros H.
  assert (Hdef : crater_defined (impact_energy d v rho) rho a /\
                 powers_in_range d v).
  { unfold simulate_impact, mass_from_diameter, kinetic_energy_joules in H.
    destruct (float_pow_int (d / 2) 3) as [r3 |] eqn:H3;
      cbn [bind] in H; [| discriminate].
    destruct (float_pow_int v 2) as [v2 |] eqn:H2;
      cbn [bind] in H; [| discriminate].
    apply float_pow_int_Ok_inv in H3. destruct H3 as [Hd ->].
    apply float_pow_int_Ok_inv in H2. destruct H2 as [Hv ->].
    fold (sphere_mass d rho) in H. fold (impact_energy d v rho) in H.
    destruct (estimate_crater_diameter (impact_energy d v rho) rho
                default_density_target a) as [x | e] eqn:Hc;
      cbn [bind] in H; [| discriminate].
    apply estimate_crater_diameter_Ok_inv in Hc.
    destruct Hc as (_ & HE & Hs & Hr).
    split; [| split; assumption].
    repeat split; try assumption.
    apply ratio_default_nonneg. exact Hr. }
  destruct Hdef as [Hdef Hrange].
  split; [exact Hdef |]. split; [exact Hrange |].
  rewrite (simulate_impact_value _ _ _ _ la lo Hdef Hrange) in H.
  injection H as H. symmetry. exact H.
Qed.

(** With the powers in range, a complex power makes [simulate_impact]
    raise [TypeError]. *)
Lemma simulate_impact_complex (d v rho a : R) (la lo : option R) :
  powers_in_range d v ->
  ~ crater_defined (impact_energy d v rho) rho a ->
  simulate_impact d v rho a la lo = Raise TypeError.
Proof.
  intros [Hd Hv] Hn. unfold simulate_impact.
  rewrite (mass_from_diameter_value _ _ Hd). cbn [bind].
  rewrite (kinetic_energy_joules_value _ _ Hv). cbn [bind].
  fold (impact_energy d v rho).
  rewrite (estimate_crater_diameter_complex _ _ _ Hn). reflexivity.
Qed.

(** A power out of range makes it raise [OverflowError]. *)
Lemma simulate_impact_overflow (d v rho a : R) (la lo : option R) :
  ~ powers_in_range d v ->
  simulate_impact d v rho a la lo = Raise OverflowError.
Proof.
  intros Hn. unfold simulate_impact, mass_from_diameter.
  destruct (Rlt_dec (Rabs ((d / 2) ^ 3)) DBL_OVERFLOW) as [Hd | Hd].
  - rewrite (float_pow_int_in_range _ _ Hd). cbn [bind].
    unfold kinetic_energy_joules.
    rewrite float_pow_int_overflow; [reflexivity |].
    destruct (Rle_dec DBL_OVERFLOW (Rabs (v ^ 2))) as [H | H]; [exact H |].
    exfalso. apply Hn. split; [exact Hd | lra].
  - rewrite float_pow_int_overflow by lra. reflexivity.
Qed.

(** The energy written out, and its sign. *)
Lemma impact_energy_eq (d v rho : R) :
  impact_energy d v rho = math_pi / 12 * rho * d ^ 3 * v ^ 2.
Proof. unfold impact_energy, sphere_mass. field. Qed.

Lemma impact_energy_pos (d v rho : R) :
  0 < d -> 0 < v -> 0 < rho -> 0 < impact_energy d v rho.
Proof.
  intros Hd Hv Hrho. rewrite impact_energy_eq.
  pose proof math_pi_bounds as HPI.
  assert (0 < d ^ 3) by (apply pow_lt; exact Hd).
  assert (0 < v ^ 2) by (apply pow_lt; exact Hv).
  apply Rmult_lt_0_compat; [apply Rmult_lt_0_compat |]; try assumption.
  apply Rmult_lt_0_compat; lra.
Qed.

(** ** Inputs of ordinary size *)

Lemma pow_le_pow (x y : R) (n : nat) : 0 <= x <= y -> x ^ n <= y ^ n.
Proof. intros [H0 Hxy]. apply pow_incr. split; assumption. Qed.

Lemma powers_in_range_bounded (d v : R) :
  Rabs d <= 10 ^ 7 -> Rabs v <= 10 ^ 10 -> powers_in_range d v.
Proof.
  intros Hd Hv. pose proof DBL_OVERFLOW_lower as Hlow.
  assert (H300 : 10 ^ 21 < 10 ^ 300) by (apply Rlt_pow; [lra | lia]).
  unfold powers_in_range. rewrite <- !RPow_abs.
  split.
  - apply Rle_lt_trans with ((10 ^ 7) ^ 3); [| lra].
    apply pow_le_pow. split; [apply Rabs_pos |].
    unfold Rdiv. rewrite Rabs_mult, (Rabs_right (/ 2)) by lra.
    pose proof (Rabs_pos d). lra.
  - apply Rle_lt_trans with ((10 ^ 10) ^ 2); [| lra].
    apply pow_le_pow. split; [apply Rabs_pos | exact Hv].
Qed.

Lemma ordinary_powers_in_range (d v rho a : R) :
  ordinary_input d v rho a -> powers_in_range d v.
Proof.
  intros ([Hd1 Hd2] & [Hv1 Hv2] & _).
  apply powers_in_range_bounded; rewrite Rabs_right; lra.
Qed.

Lemma ordinary_crater_defined (d v rho a : R) :
  ordinary_input d v rho a -> crater_defined (impact_energy d v rho) rho a.
Proof.
  intros (Hd & Hv & Hrho & Ha). repeat split.
  - left. apply impact_energy_pos; lra.
  - left. apply sin_radians_pos. lra.
  - lra.
Qed.

Lemma ordinary_energy_pos (d v rho a : R) :
  ordinary_input d v rho a -> 0 < impact_energy d v rho.
Proof.
  intros (Hd & Hv & Hrho & Ha). apply impact_energy_pos; lra.
Qed.

(** On inputs of ordinary size [simulate_impact] returns. *)
Lemma simulate_impact_ordinary (d v rho a : R) (la lo : option R) :
  ordinary_input d v rho a ->
  simulate_impact d v rho a la lo = Ok (impact_record d v rho a la lo).
Proof.
  intros H. apply simulate_impact_value.
  - apply ordinary_crater_defined, H.
  - apply (ordinary_powers_in_range d v rho a), H.
Qed.

(** ** Reference scenario *)

Lemma reference_ordinary : ordinary_input 50 20000 3000 45.
Proof. unfold ordinary_input. lra. Qed.

Lemma reference_impact_simulated :
  simulate_impact 50 20000 3000 45 None None = Ok reference_impact.
Proof. apply simulate_impact_ordinary, reference_ordinary. Qed.

Lemma reference_impact_consistent :
  simulate_input (res_input reference_impact) = Ok reference_impact.
Proof. exact reference_impact_simulated. Qed.

Lemma reference_impact_is_simulated : simulated reference_impact.
Proof. exact reference_impact_consistent. Qed.

Lemma reference_impact_ordinary : ordinary (res_input reference_impact).
Proof. exact reference_ordinary. Qed.

(** ** Damage radii: ordering, zero branch and floors *)

Lemma Rmax_mono (a b x y : R) : a <= b -> x <= y -> Rmax a x <= Rmax b y.
Proof.
  intros Hab Hxy. apply Rmax_lub.
  - apply Rle_trans with b; [exact Hab | apply Rmax_l].
  - apply Rle_trans with y; [exact Hxy | apply Rmax_r].
Qed.

Lemma damage_radii_value_ordered (E : R) : radii_ordered (damage_radii_value E).
Proof.
  unfold radii_ordered, damage_radii_value.
  destruct (Rle_dec (energy_megatons E) 0) as [Hle | Hgt]; cbn.
  - lra.
  - pose proof (Rpower_pos (energy_megatons E) (1 / 3)) as Hp.
    split; apply Rmax_mono; lra.
Qed.

(** C1.  For every energy, [estimate_damage_radii] returns radii with
    [lethal_m <= severe_m <= moderate_m], in the zero-or-negative-energy
    branch and in the floored regime alike; so the radii stored in every
    result that [simulate_impact] produces are ordered this way. *)
Theorem damage_radii_ordered :
  (forall E : R,
     exists z, estimate_damage_radii E = Ok z /\ radii_ordered z) /\
  (forall (d v rho a : R) (la lo : option R) (r : ImpactResult),
     simulate_impact d v rho a la lo = Ok r ->
     radii_ordered (res_damage_radii_m r)).
Proof.
  split.
  - intros E. exists (damage_radii_value E). split.
    + apply estimate_damage_radii_value.
    + apply damage_radii_value_ordered.
  - intros d v rho a la lo r H.
    apply simulate_impact_Ok_inv in H. destruct H as (_ & _ & ->).
    cbn. apply damage_radii_value_ordered.
Qed.

Lemma damage_radii_ordered_witness :
  simulate_impact 50 20000 3000 45 None None = Ok reference_impact /\
  radii_ordered (res_damage_radii_m reference_impact).
Proof.
  split.
  - exact reference_impact_simulated.
  - exact (proj2 damage_radii_ordered 50 20000 3000 45 None None
             reference_impact reference_impact_simulated).
Defined.

Lemma energy_megatons_zero : energy_megatons 0 = 0.
Proof. unfold energy_megatons, JOULES_PER_MEGATON_TNT. field. Qed.

Lemma energy_megatons_lt (E1 E2 : R) :
  E1 < E2 -> energy_megatons E1 < energy_megatons E2.
Proof.
  intros H. unfold energy_megatons.
  apply Rmult_lt_compat_r; [| exact H].
  apply Rinv_0_lt_compat, JOULES_PER_MEGATON_TNT_pos.
Qed.

Lemma energy_megatons_le (E1 E2 : R) :
  E1 <= E2 -> energy_megatons E1 <= energy_megatons E2.
Proof.
  intros [H | ->]; [left; apply energy_megatons_lt, H | right; reflexivity].
Qed.

Lemma energy_megatons_pos (E : R) : 0 < E -> 0 < energy_megatons E.
Proof.
  intros H. rewrite <- energy_megatons_zero. apply energy_megatons_lt, H.
Qed.

Lemma tiny_energy_bounds : 0 < 1 / 10 ^ 300 <= 1.
Proof.
  assert (H1 : 1 <= 10 ^ 300) by (apply pow_R1_Rle; lra).
  unfold Rdiv. rewrite Rmult_1_l. split.
  - apply Rinv_0_lt_compat. lra.
  - rewrite <- Rinv_1. apply Rinv_le_contravar; lra.
Qed.

(** C4, as the code has it.  When the energy in megatons is zero or
    negative the radii are exactly 0.0, 0.0 and 0.0, without floors; for an
    energy of at least 1e-300 J they are the power laws floored at 5, 10 and
    20 metres.  (A positive energy so small that its megaton value
    underflows to 0.0 takes the zero branch: see the counterexample.) *)
Theorem damage_radii_zero_or_floored (E : R) :
  (energy_megatons E <= 0 -> estimate_damage_radii E = Ok zero_radii) /\
  (1 / 10 ^ 300 <= E ->
   exists z, estimate_damage_radii E = Ok z /\
     z = {| lethal_m := Rmax 5 (1000 * Rpower (energy_megatons E) (1 / 3));
            severe_m :=
              Rmax 10 (2000 * Rpower (energy_megatons E) (1 / 3) * (6 / 10));
            moderate_m :=
              Rmax 20 (3000 * Rpower (energy_megatons E) (1 / 3) * (12 / 10)) |} /\
     5 <= lethal_m z /\ 10 <= severe_m z /\ 20 <= moderate_m z).
Proof.
  rewrite estimate_damage_radii_value. unfold damage_radii_value, zero_radii.
  split; intros H.
  - destruct (Rle_dec (energy_megatons E) 0) as [_ | Hn];
      [reflexivity | contradiction].
  - assert (Hpos : 0 < energy_megatons E).
    { apply energy_megatons_pos. pose proof tiny_energy_bounds as [H0 _].
      lra. }
    destruct (Rle_dec (energy_megatons E) 0) as [Hle | _]; [lra |].
    eexists. split; [reflexivity |]. split; [reflexivity |].
    cbn. repeat split; apply Rmax_l.
Qed.

Lemma damage_radii_zero_or_floored_witness :
  estimate_damage_radii 0 = Ok zero_radii /\
  exists z, estimate_damage_radii JOULES_PER_MEGATON_TNT = Ok z /\
    5 <= lethal_m z /\ 10 <= severe_m z /\ 20 <= moderate_m z.
Proof.
  split.
  - apply (proj1 (damage_radii_zero_or_floored 0)).
    rewrite energy_megatons_zero. lra.
  - destruct (proj2 (damage_radii_zero_or_floored JOULES_PER_MEGATON_TNT))
      as (z & Hz & _ & Hfloors).
    + pose proof tiny_energy_bounds as [_ H1].
      unfold JOULES_PER_MEGATON_TNT. lra.
    + exists z. split; [exact Hz | exact Hfloors].
Defined.

(** C4 as stated fails.  In binary64 the positive energy 1e-320 J (the
    double [0x7e8p-1074]) has a megaton value that underflows to 0.0, so the
    code takes the zero branch and returns 0.0, 0.0 and 0.0, not the floors,
    whatever [pow] is. *)
Lemma positive_energy_zero_radii_counterexample :
  PrimFloat.ltb 0%float 0x7e8p-1074%float = true /\
  (fun pow => estimate_damage_radii_b64 pow 0x7e8p-1074%float) =
  (fun _ => (0%float, 0%float, 0%float)).
Proof. split; reflexivity. Qed.

(** ** Location is carried, never computed with *)

(** C10.  Two calls of [simulate_impact] that differ only in [lat] and
    [lon] (given or [None]) agree on every numeric output, and raise the
    same exception when they raise; [lat] and [lon] are copied as they are
    into the result's input. *)
Theorem location_independent
    (d v rho a : R) (la1 lo1 la2 lo2 : option R) :
  result_map numeric_outputs (simulate_impact d v rho a la1 lo1) =
  result_map numeric_outputs (simulate_impact d v rho a la2 lo2) /\
  (forall r : ImpactResult,
     simulate_impact d v rho a la1 lo1 = Ok r ->
     lat (res_input r) = la1 /\ lon (res_input r) = lo1).
Proof.
  split.
  - unfold simulate_impact.
    destruct (mass_from_diameter d rho) as [m | e]; cbn [bind result_map];
      [| reflexivity].
    destruct (kinetic_energy_joules m v) as [E | e]; cbn [bind result_map];
      [| reflexivity].
    destruct (estimate_crater_diameter _ _ _ _) as [c | e]; cbn [bind result_map];
      [| reflexivity].
    destruct (estimate_damage_radii _) as [z | e]; reflexivity.
  - intros r H. apply simulate_impact_Ok_inv in H. destruct H as (_ & _ & ->).
    split; reflexivity.
Qed.

Lemma location_independent_witness :
  result_map numeric_outputs (simulate_impact 50 20000 3000 45 None None) =
  result_map numeric_outputs
    (simulate_impact 50 20000 3000 45 (Some 28) (Some 77)) /\
  lat (res_input reference_impact) = None /\
  lon (res_input reference_impact) = None.
Proof.
  split.
  - exact (proj1 (location_independent 50 20000 3000 45 None None
                    (Some 28) (Some 77))).
  - exact (proj2 (location_independent 50 20000 3000 45 None None None None)
             reference_impact reference_impact_simulated).
Defined.

(** ** Mitigation operators: what they read and what they keep *)

Lemma simulate_impact_input (d v rho a : R) (la lo : option R) (r : ImpactResult) :
  simulate_impact d v rho a la lo = Ok r ->
  res_input r =
  {| diameter_m := d; velocity_m_s := v; density_kg_m3 := rho;
     impact_angle_deg := a; lat := la; lon := lo |}.
Proof.
  intros H. apply simulate_impact_Ok_inv in H. destruct H as (_ & _ & ->).
  reflexivity.
Qed.

Lemma apply_kinetic_impactor_input (prior r : ImpactResult) (pct : R) :
  apply_kinetic_impactor prior pct = Ok r ->
  res_input r =
  {| diameter_m := diameter_m (res_input prior);
     velocity_m_s := velocity_m_s (res_input prior) * (1 - pct / 100);
     density_kg_m3 := density_kg_m3 (res_input prior);
     impact_angle_deg := impact_angle_deg (res_input prior);
     lat := lat (res_input prior);
     lon := lon (res_input prior) |}.
Proof.
  unfold apply_kinetic_impactor. apply simulate_impact_input.
Qed.

Lemma apply_nuclear_deflection_input (prior r : ImpactResult) (pct : R) :
  apply_nuclear_deflection prior pct = Ok r ->
  res_input r =
  {| diameter_m := diameter_m (res_input prior);
     velocity_m_s :=
       velocity_m_s (res_input prior) * sqrt (Rmax 0 (1 - pct / 100));
     density_kg_m3 := density_kg_m3 (res_input prior);
     impact_angle_deg := impact_angle_deg (res_input prior);
     lat := lat (res_input prior);
     lon := lon (res_input prior) |}.
Proof.
  unfold apply_nuclear_deflection.
  rewrite math_sqrt_nonneg by apply Rmax_l. cbn [bind].
  apply simulate_impact_input.
Qed.

Lemma apply_fragmentation_Ok_inv (prior r : ImpactResult) (n : Z) :
  apply_fragmentation prior n = Ok r ->
  (0 < n < DBL_OVERFLOW_Z)%Z /\
  simulate_impact
    (diameter_m (res_input prior) / Rpower (IZR n) (1 / 3))
    (velocity_m_s (res_input prior) * (1 / sqrt (IZR n)))
    (density_kg_m3 (res_input prior)) (impact_angle_deg (res_input prior))
    (lat (res_input prior)) (lon (res_input prior)) = Ok r.
Proof.
  unfold apply_fragmentation, float_of_int.
  destruct (Z.leb_spec DBL_OVERFLOW_Z (Z.abs n)) as [Hbig | Hsmall];
    cbn [bind]; [discriminate |].
  unfold math_sqrt.
  destruct (Rlt_dec (IZR n) 0) as [Hneg | Hnn]; cbn [bind]; [discriminate |].
  unfold float_div at 1.
  destruct (Req_dec_T (sqrt (IZR n)) 0) as [Hz | Hnz]; cbn [bind];
    [discriminate |].
  assert (Hpos : 0 < IZR n).
  { destruct (Rle_lt_or_eq_dec 0 (IZR n)) as [Hlt | Heq]; [lra | exact Hlt |].
    exfalso. apply Hnz. rewrite <- Heq. apply sqrt_0. }
  rewrite (float_pow_pos _ _ Hpos).
  rewrite float_div_nonzero by (apply Rgt_not_eq, Rpower_pos).
  cbn [bind]. intros H. split; [| exact H].
  apply lt_IZR in Hpos. lia.
Qed.

Lemma apply_fragmentation_input (prior r : ImpactResult) (n : Z) :
  apply_fragmentation prior n = Ok r ->
  0 < IZR n /\
  res_input r =
  {| diameter_m := diameter_m (res_input prior) / Rpower (IZR n) (1 / 3);
     velocity_m_s := velocity_m_s (res_input prior) * (1 / sqrt (IZR n));
     density_kg_m3 := density_kg_m3 (res_input prior);
     impact_angle_deg := impact_angle_deg (res_input prior);
     lat := lat (res_input prior);
     lon := lon (res_input prior) |}.
Proof.
  intros H. apply apply_fragmentation_Ok_inv in H. destruct H as [Hn H].
  split; [apply IZR_lt; lia |].
  apply simulate_impact_input in H. exact H.
Qed.

(** C8.  The result of each mitigation operator is a function of
    [prior.input] alone, and the input stored in it keeps [lat], [lon],
    [density_kg_m3] and [impact_angle_deg] of the prior input; the kinetic
    impactor and the nuclear deflection keep [diameter_m] as well. *)
Theorem mitigation_frame :
  (forall (p1 p2 : ImpactResult),
     res_input p1 = res_input p2 ->
     (forall pct, apply_kinetic_impactor p1 pct = apply_kinetic_impactor p2 pct) /\
     (forall pct, apply_nuclear_deflection p1 pct = apply_nuclear_deflection p2 pct) /\
     (forall n, apply_fragmentation p1 n = apply_fragmentation p2 n)) /\
  (forall (prior r : ImpactResult) (pct : R),
     apply_kinetic_impactor prior pct = Ok r ->
     same_site (res_input prior) (res_input r) /\
     diameter_m (res_input r) = diameter_m (res_input prior)) /\
  (forall (prior r : ImpactResult) (pct : R),
     apply_nuclear_deflection prior pct = Ok r ->
     same_site (res_input prior) (res_input r) /\
     diameter_m (res_input r) = diameter_m (res_input prior)) /\
  (forall (prior r : ImpactResult) (n : Z),
     apply_fragmentation prior n = Ok r ->
     same_site (res_input prior) (res_input r)).
Proof.
  split; [| split; [| split]].
  - intros p1 p2 Hin.
    unfold apply_kinetic_impactor, apply_nuclear_deflection, apply_fragmentation.
    rewrite Hin. repeat split; reflexivity.
  - intros prior r pct H. apply apply_kinetic_impactor_input in H.
    rewrite H. unfold same_site. cbn. repeat split; reflexivity.
  - intros prior r pct H. apply apply_nuclear_deflection_input in H.
    rewrite H. unfold same_site. cbn. repeat split; reflexivity.
  - intros prior r n H. apply apply_fragmentation_input in H.
    destruct H as [_ H].
    rewrite H. unfold same_site. cbn. repeat split; reflexivity.
Qed.

(** ** Mitigation operators on a simulated prior *)

Lemma impact_energy_scale_velocity (d v rho k : R) :
  impact_energy d (v * k) rho = impact_energy d v rho * k ^ 2.
Proof. rewrite !impact_energy_eq. ring. Qed.

Lemma impact_energy_scale_diameter (d v rho c : R) :
  c <> 0 -> impact_energy (d / c) v rho = impact_energy d v rho / c ^ 3.
Proof. intros Hc. rewrite !impact_energy_eq. field. exact Hc. Qed.

Lemma energy_megatons_scale (E k : R) :
  energy_megatons (E * k) = energy_megatons E * k.
Proof.
  unfold energy_megatons. field.
  apply Rgt_not_eq, JOULES_PER_MEGATON_TNT_pos.
Qed.

(** A smaller diameter and a smaller velocity stay in range. *)
Lemma powers_in_range_smaller (d v d' v' : R) :
  Rabs d' <= Rabs d -> Rabs v' <= Rabs v ->
  powers_in_range d v -> powers_in_range d' v'.
Proof.
  intros Hd Hv [H3 H2]. unfold powers_in_range in *.
  rewrite <- !RPow_abs in *. split.
  - apply Rle_lt_trans with (Rabs (d / 2) ^ 3); [| exact H3].
    apply pow_le_pow. split; [apply Rabs_pos |].
    unfold Rdiv. rewrite !Rabs_mult. apply Rmult_le_compat_r;
      [apply Rabs_pos | exact Hd].
  - apply Rle_lt_trans with (Rabs v ^ 2); [| exact H2].
    apply pow_le_pow. split; [apply Rabs_pos | exact Hv].
Qed.

Lemma Rabs_scale_le (v k : R) : Rabs k <= 1 -> Rabs (v * k) <= Rabs v.
Proof.
  intros Hk. rewrite Rabs_mult. pose proof (Rabs_pos v). nra.
Qed.

Lemma Rabs_inv_le_1 (x : R) : 1 <= x -> Rabs (/ x) <= 1.
Proof.
  intros Hx. rewrite Rabs_right by (left; apply Rinv_0_lt_compat; lra).
  apply Rle_trans with (/ 1); [| rewrite Rinv_1; lra].
  apply Rinv_le_contravar; lra.
Qed.

Lemma cube_root_ge_1 (x : R) : 1 <= x -> 1 <= Rpower x (1 / 3).
Proof.
  intros Hx. apply Rle_trans with (Rpower 1 (1 / 3)).
  - rewrite Rpower_one_base. lra.
  - apply Rle_Rpower_l; lra.
Qed.

Section SimulatedPrior.

Variable prior : ImpactResult.
Hypothesis Hsim : simulated prior.

Let d := diameter_m (res_input prior).
Let v := velocity_m_s (res_input prior).
Let rho := density_kg_m3 (res_input prior).
Let a := impact_angle_deg (res_input prior).

Lemma simulated_eq :
  prior = impact_record d v rho a (lat (res_input prior)) (lon (res_input prior)).
Proof.
  pose proof Hsim as H. unfold simulated, simulate_input in H.
  apply simulate_impact_Ok_inv in H. apply H.
Qed.

Lemma simulated_in_range : powers_in_range d v.
Proof.
  pose proof Hsim as H. unfold simulated, simulate_input in H.
  apply simulate_impact_Ok_inv in H. apply H.
Qed.

Lemma simulated_inv :
  crater_defined (res_energy_joules prior) rho a /\
  res_energy_joules prior = impact_energy d v rho /\
  res_energy_megatons prior = energy_megatons (res_energy_joules prior).
Proof.
  pose proof Hsim as H. unfold simulated, simulate_input in H.
  apply simulate_impact_Ok_inv in H. destruct H as (Hdef & _ & _).
  pose proof simulated_eq as Heq.
  pose proof (f_equal res_energy_joules Heq) as HE.
  pose proof (f_equal res_energy_megatons Heq) as HM.
  cbn [impact_record res_energy_joules res_energy_megatons] in HE, HM.
  rewrite <- HE in HM. rewrite HE.
  split; [exact Hdef | split; [reflexivity |]].
  rewrite <- HE. exact HM.
Qed.

Lemma simulated_fields :
  res_mass_kg prior = sphere_mass d rho /\
  res_crater_diameter_m prior =
    crater_value (res_energy_joules prior) rho default_density_target a /\
  res_damage_radii_m prior = damage_radii_value (res_energy_joules prior).
Proof.
  destruct simulated_inv as (_ & HE & _).
  pose proof simulated_eq as Heq.
  pose proof (f_equal res_mass_kg Heq) as Hm.
  pose proof (f_equal res_crater_diameter_m Heq) as Hc.
  pose proof (f_equal res_damage_radii_m Heq) as Hz.
  cbn [impact_record res_mass_kg res_crater_diameter_m res_damage_radii_m]
    in Hm, Hc, Hz.
  rewrite <- HE in Hc, Hz. repeat split; assumption.
Qed.

(** Slowing the prior down by a factor of magnitude at most 1 keeps the
    crater estimate defined and the powers in range: the energy is
    multiplied by a square. *)
Lemma slowed_value (k : R) :
  Rabs k <= 1 ->
  simulate_impact d (v * k) rho a (lat (res_input prior))
    (lon (res_input prior)) =
  Ok (impact_record d (v * k) rho a (lat (res_input prior))
        (lon (res_input prior))).
Proof.
  intros Hk. apply simulate_impact_value.
  - destruct simulated_inv as ((HE & Hs & Hr) & Heq & _).
    rewrite impact_energy_scale_velocity, <- Heq.
    repeat split; try assumption.
    apply Rmult_le_pos; [exact HE | apply pow2_ge_0].
  - apply (powers_in_range_smaller d v); [lra | | exact simulated_in_range].
    apply Rabs_scale_le, Hk.
Qed.

Lemma apply_kinetic_impactor_value (pct : R) :
  0 <= pct <= 200 ->
  apply_kinetic_impactor prior pct =
  Ok (impact_record d (v * (1 - pct / 100)) rho a
        (lat (res_input prior)) (lon (res_input prior))).
Proof.
  intros Hpct. unfold apply_kinetic_impactor.
  apply slowed_value. apply Rabs_le. lra.
Qed.

Lemma nuclear_factor_le_1 (pct : R) :
  0 <= pct -> Rabs (sqrt (Rmax 0 (1 - pct / 100))) <= 1.
Proof.
  intros Hpct. rewrite Rabs_right by (apply Rle_ge, sqrt_pos).
  apply Rle_trans with (sqrt 1); [| rewrite sqrt_1; lra].
  apply sqrt_le_1_alt. apply Rmax_lub; lra.
Qed.

Lemma apply_nuclear_deflection_value (pct : R) :
  0 <= pct ->
  apply_nuclear_deflection prior pct =
  Ok (impact_record d (v * sqrt (Rmax 0 (1 - pct / 100))) rho a
        (lat (res_input prior)) (lon (res_input prior))).
Proof.
  intros Hpct. unfold apply_nuclear_deflection.
  rewrite math_sqrt_nonneg by apply Rmax_l. cbn [bind].
  apply slowed_value, nuclear_factor_le_1, Hpct.
Qed.

Lemma apply_fragmentation_value (n : Z) :
  (1 <= n < DBL_OVERFLOW_Z)%Z ->
  apply_fragmentation prior n =
  Ok (impact_record (d / Rpower (IZR n) (1 / 3)) (v * (1 / sqrt (IZR n)))
        rho a (lat (res_input prior)) (lon (res_input prior))).
Proof.
  intros Hn. unfold apply_fragmentation.
  rewrite float_of_int_in_range by lia. cbn [bind].
  assert (H1 : 1 <= IZR n) by (apply IZR_le; lia).
  rewrite math_sqrt_nonneg by lra. cbn [bind].
  assert (Hs : 1 <= sqrt (IZR n)).
  { apply Rle_trans with (sqrt 1); [rewrite sqrt_1; lra |].
    apply sqrt_le_1_alt. exact H1. }
  rewrite float_div_nonzero by lra. cbn [bind].
  rewrite float_pow_pos by lra.
  pose proof (cube_root_ge_1 (IZR n) H1) as Hc.
  rewrite float_div_nonzero by lra. cbn [bind].
  apply simulate_impact_value.
  - destruct simulated_inv as ((HE & Hsin & Hr) & Heq & _).
    fold d v rho a.
    rewrite impact_energy_scale_velocity, impact_energy_scale_diameter by lra.
    rewrite <- Heq. repeat split; try assumption.
    apply Rmult_le_pos; [| apply pow2_ge_0].
    apply Rmult_le_pos; [exact HE |].
    left. apply Rinv_0_lt_compat, pow_lt. lra.
  - apply (powers_in_range_smaller d v); [| | exact simulated_in_range].
    + unfold Rdiv. apply Rabs_scale_le, Rabs_inv_le_1. lra.
    + apply Rabs_scale_le. unfold Rdiv. rewrite Rmult_1_l.
      apply Rabs_inv_le_1. lra.
Qed.

End SimulatedPrior.

Lemma mitigation_frame_witness :
  (exists r, apply_kinetic_impactor reference_impact 20 = Ok r /\
     same_site (res_input reference_impact) (res_input r) /\
     diameter_m (res_input r) = diameter_m (res_input reference_impact)) /\
  (exists r, apply_nuclear_deflection reference_impact 60 = Ok r /\
     same_site (res_input reference_impact) (res_input r) /\
     diameter_m (res_input r) = diameter_m (res_input reference_impact)) /\
  (exists r, apply_fragmentation reference_impact 4 = Ok r /\
     same_site (res_input reference_impact) (res_input r)).
Proof.
  destruct mitigation_frame as (_ & Hk & Hn & Hf).
  assert (H4 : (1 <= 4 < DBL_OVERFLOW_Z)%Z) by (vm_compute; split; congruence).
  split; [| split].
  - eexists. split.
    + apply apply_kinetic_impactor_value;
        [exact reference_impact_is_simulated | lra].
    + eapply Hk. apply apply_kinetic_impactor_value;
        [exact reference_impact_is_simulated | lra].
  - eexists. split.
    + apply apply_nuclear_deflection_value;
        [exact reference_impact_is_simulated | lra].
    + eapply Hn. apply apply_nuclear_deflection_value;
        [exact reference_impact_is_simulated | lra].
  - eexists. split.
    + apply apply_fragmentation_value;
        [exact reference_impact_is_simulated | exact H4].
    + eapply Hf. apply apply_fragmentation_value;
        [exact reference_impact_is_simulated | exact H4].
Defined.

(** ** The three transforms *)





Lemma cube_root_8 : Rpower 8 (1 / 3) = 2.
Proof.
  replace 8 with (2 ^ 3) by ring.
  apply Rpower_cube_root. lra.
Qed.


Lemma small_count_in_range (n : Z) :
  (n <= 2 ^ 53)%Z -> (n < DBL_OVERFLOW_Z)%Z.
Proof.
  intros H. apply Z.le_lt_trans with (2 ^ 53)%Z; [exact H |].
  apply Z.ltb_lt. vm_compute. reflexivity.
Qed.



(** ** The crater law *)


Lemma normal_size_3000 : normal_size 3000.
Proof.
  pose proof tiny_energy_bounds as [_ Htiny].
  assert (H : 10 ^ 4 <= 10 ^ 300) by (apply Rle_pow; [lra | lia]).
  unfold normal_size. lra.
Qed.



(** ** Monotonicity in the energy *)

Lemma Rmax_strict (a x y : R) : x < y -> a < Rmax a y -> Rmax a x < Rmax a y.
Proof.
  intros Hxy Ha.
  assert (Hy : Rmax a y = y).
  { apply Rmax_right. destruct (Rle_dec a y) as [H | H]; [exact H |].
    rewrite Rmax_left in Ha by lra. lra. }
  rewrite Hy in *. apply Rmax_lub_lt; assumption.
Qed.

(** The unfloored crater grows strictly with the energy. *)
Lemma crater_power_law_lt (E1 E2 rho a : R) :
  0 <= E1 < E2 -> 0 < rho -> 0 < a <= 90 ->
  C * rpow E1 (25 / 100) * rpow (sin (math_radians a)) (1 / 3)
    * rpow (rho / default_density_target) (1 / 9)
  < C * rpow E2 (25 / 100) * rpow (sin (math_radians a)) (1 / 3)
    * rpow (rho / default_density_target) (1 / 9).
Proof.
  intros HE Hrho Ha.
  assert (Hs : 0 < rpow (sin (math_radians a)) (1 / 3)).
  { rewrite rpow_pos by (apply sin_radians_pos; exact Ha). apply Rpower_pos. }
  assert (Hq : 0 < rpow (rho / default_density_target) (1 / 9)).
  { rewrite rpow_pos by (unfold default_density_target; lra).
    apply Rpower_pos. }
  assert (Hp : rpow E1 (25 / 100) < rpow E2 (25 / 100))
    by (apply rpow_lt; lra).
  apply Rmult_lt_compat_r; [exact Hq |].
  apply Rmult_lt_compat_r; [exact Hs |].
  apply Rmult_lt_compat_l; [unfold C; lra | exact Hp].
Qed.

(** The radii of a positive energy, and their growth with the energy. *)
Lemma damage_radii_value_pos (E : R) :
  0 < E ->
  damage_radii_value E =
  {| lethal_m := Rmax 5 (1000 * Rpower (energy_megatons E) (1 / 3));
     severe_m := Rmax 10 (2000 * Rpower (energy_megatons E) (1 / 3) * (6 / 10));
     moderate_m :=
       Rmax 20 (3000 * Rpower (energy_megatons E) (1 / 3) * (12 / 10)) |}.
Proof.
  intros HE. unfold damage_radii_value.
  pose proof (energy_megatons_pos E HE) as Hmt.
  destruct (Rle_dec (energy_megatons E) 0) as [H | _]; [lra | reflexivity].
Qed.

Lemma cube_root_megatons_lt (E1 E2 : R) :
  0 < E1 < E2 ->
  Rpower (energy_megatons E1) (1 / 3) < Rpower (energy_megatons E2) (1 / 3).
Proof.
  intros [H1 H12]. apply Rlt_Rpower_l; [lra |]. split.
  - apply energy_megatons_pos, H1.
  - apply energy_megatons_lt, H12.
Qed.

Lemma crater_value_le (E1 E2 rho rho_t a : R) :
  0 <= E1 <= E2 ->
  crater_value E1 rho rho_t a <= crater_value E2 rho rho_t a.
Proof.
  intros HE. unfold crater_value.
  pose proof (rpow_nonneg (sin (math_radians a)) (1 / 3)) as Hs.
  pose proof (rpow_nonneg (rho / rho_t) (1 / 9)) as Hq.
  assert (Hp : rpow E1 (25 / 100) <= rpow E2 (25 / 100))
    by (apply rpow_le; lra).
  apply Rmax_mono; [lra |].
  apply Rmult_le_compat_r; [exact Hq |].
  apply Rmult_le_compat_r; [exact Hs |].
  apply Rmult_le_compat_l; [unfold C; lra | exact Hp].
Qed.

Lemma damage_radii_value_le (E1 E2 : R) :
  E1 <= E2 -> zones_le (damage_radii_value E1) (damage_radii_value E2).
Proof.
  intros HE. pose proof (energy_megatons_le _ _ HE) as Hmt.
  unfold zones_le, damage_radii_value.
  destruct (Rle_dec (energy_megatons E1) 0) as [H1 | H1];
    destruct (Rle_dec (energy_megatons E2) 0) as [H2 | H2];
    cbn [lethal_m severe_m moderate_m].
  - lra.
  - repeat split.
    + apply Rle_trans with 5; [lra | apply Rmax_l].
    + apply Rle_trans with 10; [lra | apply Rmax_l].
    + apply Rle_trans with 20; [lra | apply Rmax_l].
  - lra.
  - assert (Hp : Rpower (energy_megatons E1) (1 / 3)
                 <= Rpower (energy_megatons E2) (1 / 3))
      by (apply Rle_Rpower_l; lra).
    repeat split; apply Rmax_mono; lra.
Qed.

Lemma damage_radii_value_nonneg (E : R) : 0 <= lethal_m (damage_radii_value E).
Proof.
  unfold damage_radii_value.
  destruct (Rle_dec (energy_megatons E) 0) as [_ | _]; cbn [lethal_m].
  - lra.
  - apply Rle_trans with 5; [lra | apply Rmax_l].
Qed.

Lemma crater_value_floor_le (E rho rho_t a : R) : 1 <= crater_value E rho rho_t a.
Proof. unfold crater_value. apply Rmax_l. Qed.

(** Above their floors the crater and the radii grow strictly with a
    positive energy. *)
Lemma outputs_strict (E1 E2 rho a : R) :
  0 < E1 < E2 -> 0 < rho -> 0 < a <= 90 ->
  (1 < crater_value E2 rho default_density_target a ->
   crater_value E1 rho default_density_target a
     < crater_value E2 rho default_density_target a) /\
  (5 < lethal_m (damage_radii_value E2) ->
   lethal_m (damage_radii_value E1) < lethal_m (damage_radii_value E2)) /\
  (10 < severe_m (damage_radii_value E2) ->
   severe_m (damage_radii_value E1) < severe_m (damage_radii_value E2)) /\
  (20 < moderate_m (damage_radii_value E2) ->
   moderate_m (damage_radii_value E1) < moderate_m (damage_radii_value E2)).
Proof.
  intros HE Hrho Ha. split.
  - unfold crater_value. apply Rmax_strict.
    apply crater_power_law_lt; [lra | exact Hrho | exact Ha].
  - rewrite !damage_radii_value_pos by lra.
    pose proof (cube_root_megatons_lt _ _ HE) as Hp.
    cbn [lethal_m severe_m moderate_m].
    repeat split; apply Rmax_strict; lra.
Qed.

(** ** Monotonicity in the velocity *)

Lemma impact_energy_velocity_lt (d rho v1 v2 : R) :
  0 < d -> 0 < rho -> 0 < v1 < v2 ->
  impact_energy d v1 rho < impact_energy d v2 rho.
Proof.
  intros Hd Hrho [H1 H12]. rewrite !impact_energy_eq.
  pose proof math_pi_bounds as HPI.
  assert (Hd3 : 0 < d ^ 3) by (apply pow_lt; exact Hd).
  assert (Hk : 0 < math_pi / 12 * rho * d ^ 3).
  { apply Rmult_lt_0_compat; [| exact Hd3].
    apply Rmult_lt_0_compat; lra. }
  apply Rmult_lt_compat_l; [exact Hk |]. nra.
Qed.

(** C2, as the code has it.  For inputs of ordinary size that agree on
    diameter, density and angle, a strictly larger velocity gives an
    [energy_joules], an [energy_megatons], a crater diameter and damage
    radii that are not smaller.  When the velocities differ by at least one
    part in a million the two energies are strictly larger, and so are the
    crater diameter and each radius whose value for the faster impact is at
    least a thousandth above its floor (1, 5, 10 and 20 m). *)
Theorem velocity_monotone
    (d rho a v1 v2 : R) (la1 lo1 la2 lo2 : option R) :
  ordinary_input d v1 rho a -> ordinary_input d v2 rho a -> v1 < v2 ->
  exists r1 r2,
    simulate_impact d v1 rho a la1 lo1 = Ok r1 /\
    simulate_impact d v2 rho a la2 lo2 = Ok r2 /\
    res_energy_joules r1 <= res_energy_joules r2 /\
    res_energy_megatons r1 <= res_energy_megatons r2 /\
    res_crater_diameter_m r1 <= res_crater_diameter_m r2 /\
    zones_le (res_damage_radii_m r1) (res_damage_radii_m r2) /\
    (v1 * (1 + 1 / 10 ^ 6) <= v2 ->
     res_energy_joules r1 < res_energy_joules r2 /\
     res_energy_megatons r1 < res_energy_megatons r2 /\
     (1001 / 1000 <= res_crater_diameter_m r2 ->
      res_crater_diameter_m r1 < res_crater_diameter_m r2) /\
     (5005 / 1000 <= lethal_m (res_damage_radii_m r2) ->
      lethal_m (res_damage_radii_m r1) < lethal_m (res_damage_radii_m r2)) /\
     (10010 / 1000 <= severe_m (res_damage_radii_m r2) ->
      severe_m (res_damage_radii_m r1) < severe_m (res_damage_radii_m r2)) /\
     (20020 / 1000 <= moderate_m (res_damage_radii_m r2) ->
      moderate_m (res_damage_radii_m r1)
        < moderate_m (res_damage_radii_m r2))).
Proof.
  intros Hord1 Hord2 Hv.
  exists (impact_record d v1 rho a la1 lo1), (impact_record d v2 rho a la2 lo2).
  split; [apply simulate_impact_ordinary, Hord1 |].
  split; [apply simulate_impact_ordinary, Hord2 |].
  pose proof (ordinary_energy_pos _ _ _ _ Hord1) as HE1.
  destruct Hord1 as (Hd & Hv1 & Hrho & Ha).
  assert (HE : impact_energy d v1 rho < impact_energy d v2 rho)
    by (apply impact_energy_velocity_lt; lra).
  cbn [impact_record res_energy_joules res_energy_megatons
       res_crater_diameter_m res_damage_radii_m].
  split; [lra |].
  split; [apply energy_megatons_le; lra |].
  split; [apply crater_value_le; lra |].
  split; [apply damage_radii_value_le; lra |].
  intros _.
  split; [exact HE |].
  split; [apply energy_megatons_lt, HE |].
  destruct (outputs_strict _ _ rho a (conj HE1 HE)) as (Hc & Hl & Hs & Hm);
    [lra | lra |].
  repeat split; intros H; [apply Hc | apply Hl | apply Hs | apply Hm]; lra.
Qed.

Lemma velocity_monotone_witness :
  exists r1 r2,
    simulate_impact 50 20000 3000 45 None None = Ok r1 /\
    simulate_impact 50 25000 3000 45 None None = Ok r2 /\
    res_energy_joules r1 < res_energy_joules r2 /\
    res_energy_megatons r1 < res_energy_megatons r2 /\
    res_crater_diameter_m r1 <= res_crater_diameter_m r2.
Proof.
  destruct (velocity_monotone 50 3000 45 20000 25000 None None None None)
    as (r1 & r2 & H1 & H2 & _ & _ & HC & _ & Hstrict);
    try (unfold ordinary_input; lra).
  destruct Hstrict as (HE & HM & _); [lra |].
  exists r1, r2. repeat split; assumption.
Defined.

(** *** Small impacts sit on the floors *)

Lemma rpow_le_one (x y : R) : 0 <= y -> 0 <= x <= 1 -> rpow x y <= 1.
Proof.
  intros Hy Hx.
  apply Rle_trans with (rpow 1 y); [apply rpow_le; lra |].
  rewrite rpow_pos by lra. rewrite Rpower_one_base. lra.
Qed.

(** Up to [28^4] joules, with an impactor no denser than the target, the
    crater is the floor of 1 m. *)
Lemma crater_value_floor (E rho a : R) :
  0 <= E <= 28 ^ 4 -> 0 <= rho <= default_density_target ->
  0 <= sin (math_radians a) ->
  crater_value E rho default_density_target a = 1.
Proof.
  intros HE Hrho Hs. unfold crater_value.
  assert (Hx : rpow E (25 / 100) <= 28).
  { apply Rle_trans with (rpow (28 ^ 4) (25 / 100)); [apply rpow_le; lra |].
    rewrite rpow_pos by lra. rewrite Rpower_fourth_root; lra. }
  assert (Hsf : rpow (sin (math_radians a)) (1 / 3) <= 1).
  { apply rpow_le_one; [lra |]. split; [exact Hs | apply SIN_bound]. }
  assert (Hq : rpow (rho / default_density_target) (1 / 9) <= 1).
  { apply rpow_le_one; [lra |]. unfold default_density_target in *.
    split; lra. }
  pose proof (rpow_nonneg E (25 / 100)) as Hx0.
  pose proof (rpow_nonneg (sin (math_radians a)) (1 / 3)) as Hs0.
  pose proof (rpow_nonneg (rho / default_density_target) (1 / 9)) as Hq0.
  set (x := rpow E (25 / 100)) in *.
  set (s := rpow (sin (math_radians a)) (1 / 3)) in *.
  set (q := rpow (rho / default_density_target) (1 / 9)) in *.
  apply Rmax_left. unfold C.
  assert (Hxs : 0 <= x * s <= 28) by nra.
  assert (Hxsq : x * s * q <= 28) by nra.
  lra.
Qed.

(** Up to [(1/200)^3] megatons the three radii are their floors. *)
Lemma damage_radii_value_floor (E : R) :
  0 < E -> energy_megatons E <= (1 / 200) ^ 3 ->
  damage_radii_value E =
  {| lethal_m := 5; severe_m := 10; moderate_m := 20 |}.
Proof.
  intros HE Hsmall. rewrite (damage_radii_value_pos E HE).
  assert (Hc : Rpower (energy_megatons E) (1 / 3) <= 1 / 200).
  { apply Rle_trans with (Rpower ((1 / 200) ^ 3) (1 / 3)).
    - apply Rle_Rpower_l; [lra |]. split; [| exact Hsmall].
      apply energy_megatons_pos, HE.
    - rewrite Rpower_cube_root; lra. }
  rewrite !Rmax_left by lra. reflexivity.
Qed.

(** C2 as stated fails: a 0.1 m body of density 500 at 1000 m/s and at
    1500 m/s, vertical impact, has the same crater diameter and the same
    three radii, all on their floors, although the velocity is strictly
    larger. *)
Lemma velocity_strict_counterexample :
  exists r1 r2,
    simulate_impact (1 / 10) 1000 500 90 None None = Ok r1 /\
    simulate_impact (1 / 10) 1500 500 90 None None = Ok r2 /\
    1000 < 1500 /\
    ~ res_crater_diameter_m r1 < res_crater_diameter_m r2 /\
    ~ lethal_m (res_damage_radii_m r1) < lethal_m (res_damage_radii_m r2) /\
    ~ severe_m (res_damage_radii_m r1) < severe_m (res_damage_radii_m r2) /\
    ~ moderate_m (res_damage_radii_m r1) < moderate_m (res_damage_radii_m r2).
Proof.
  assert (Hdom1 : ordinary_input (1 / 10) 1000 500 90)
    by (unfold ordinary_input; lra).
  assert (Hdom2 : ordinary_input (1 / 10) 1500 500 90)
    by (unfold ordinary_input; lra).
  exists (impact_record (1 / 10) 1000 500 90 None None),
         (impact_record (1 / 10) 1500 500 90 None None).
  split; [apply simulate_impact_ordinary, Hdom1 |].
  split; [apply simulate_impact_ordinary, Hdom2 |].
  split; [lra |].
  pose proof math_pi_bounds as HPI.
  assert (HE1 : 0 < impact_energy (1 / 10) 1000 500 <= 28 ^ 4).
  { rewrite impact_energy_eq. lra. }
  assert (HE2 : 0 < impact_energy (1 / 10) 1500 500 <= 28 ^ 4).
  { rewrite impact_energy_eq. lra. }
  assert (Hsin : 0 <= sin (math_radians 90))
    by (left; apply sin_radians_pos; lra).
  cbn [impact_record res_crater_diameter_m res_damage_radii_m].
  rewrite !crater_value_floor
    by (try assumption; unfold default_density_target; lra).
  rewrite !damage_radii_value_floor
    by (try tauto; unfold energy_megatons, JOULES_PER_MEGATON_TNT; lra).
  cbn [lethal_m severe_m moderate_m]. repeat split; lra.
Qed.


(** ** Out-of-domain inputs and parameters *)

Lemma impact_record_zero_energy (d v rho a : R) (la lo : option R) :
  impact_energy d v rho = 0 -> 0 <= sin (math_radians a) -> 0 <= rho ->
  res_energy_joules (impact_record d v rho a la lo) = 0 /\
  res_energy_megatons (impact_record d v rho a la lo) = 0 /\
  res_crater_diameter_m (impact_record d v rho a la lo) = 1 /\
  res_damage_radii_m (impact_record d v rho a la lo) = zero_radii.
Proof.
  intros HE Hs Hr.
  cbn [impact_record res_energy_joules res_energy_megatons
       res_crater_diameter_m res_damage_radii_m].
  rewrite HE, energy_megatons_zero.
  repeat split.
  - unfold crater_value. rewrite rpow_zero.
    apply Rmax_left. lra.
  - unfold damage_radii_value. rewrite energy_megatons_zero.
    destruct (Rle_dec 0 0) as [_ | H]; [reflexivity | lra].
Qed.

Lemma impact_energy_zero_velocity (d rho : R) : impact_energy d 0 rho = 0.
Proof. rewrite impact_energy_eq. ring. Qed.

Lemma apply_fragmentation_overflow (prior : ImpactResult) (n : Z) :
  (DBL_OVERFLOW_Z <= Z.abs n)%Z ->
  apply_fragmentation prior n = Raise OverflowError.
Proof.
  intros Hn. unfold apply_fragmentation.
  rewrite (float_of_int_overflow _ Hn). reflexivity.
Qed.

Lemma apply_fragmentation_negative (prior : ImpactResult) (n : Z) :
  (- DBL_OVERFLOW_Z < n < 0)%Z -> apply_fragmentation prior n = Raise ValueError.
Proof.
  intros Hn. unfold apply_fragmentation.
  rewrite float_of_int_in_range by lia. cbn [bind]. unfold math_sqrt.
  assert (H : IZR n < 0) by (apply IZR_lt; lia).
  destruct (Rlt_dec (IZR n) 0) as [_ | Hc]; [reflexivity | contradiction].
Qed.

Lemma apply_fragmentation_zero (prior : ImpactResult) :
  apply_fragmentation prior 0 = Raise ZeroDivisionError.
Proof.
  unfold apply_fragmentation.
  rewrite float_of_int_in_range by (vm_compute; reflexivity). cbn [bind].
  rewrite math_sqrt_nonneg by lra. cbn [bind].
  rewrite sqrt_0. unfold float_div.
  destruct (Req_dec_T 0 0) as [_ | H]; [reflexivity | contradiction].
Qed.

Lemma impact_record_eq (d1 v1 d2 v2 rho a : R) (la lo : option R) :
  d1 = d2 -> v1 = v2 ->
  impact_record d1 v1 rho a la lo = impact_record d2 v2 rho a la lo.
Proof. intros -> ->. reflexivity. Qed.

Lemma apply_fragmentation_one (prior : ImpactResult) :
  simulated prior -> apply_fragmentation prior 1 = Ok prior.
Proof.
  intros H.
  rewrite (apply_fragmentation_value prior H)
    by (split; [lia | apply small_count_in_range; lia]).
  f_equal. rewrite (simulated_eq prior H) at 7.
  apply impact_record_eq.
  - rewrite Rpower_one_base. field.
  - rewrite sqrt_1. field.
Qed.




(** * Further properties of the impact model *)

(** ** Areas *)

Lemma area_from_radius_m_eq (r : R) :
  area_from_radius_m r = math_pi * r ^ 2 / 10 ^ 6.
Proof. reflexivity. Qed.

Lemma area_from_radius_m_le (r1 r2 : R) :
  0 <= r1 <= r2 -> area_from_radius_m r1 <= area_from_radius_m r2.
Proof.
  intros [H1 H12]. rewrite !area_from_radius_m_eq.
  pose proof math_pi_bounds as HPI.
  assert (Hsq : r1 ^ 2 <= r2 ^ 2) by nra.
  apply Rmult_le_compat_r; [lra |].
  apply Rmult_le_compat_l; lra.
Qed.

Lemma areas_of_result_ordered
    (d v rho a : R) (la lo : option R) (r : ImpactResult) :
  simulate_impact d v rho a la lo = Ok r ->
  0 <= lethal_m (res_affected_areas_km2 r) /\
  lethal_m (res_affected_areas_km2 r) <= severe_m (res_affected_areas_km2 r) /\
  severe_m (res_affected_areas_km2 r) <= moderate_m (res_affected_areas_km2 r).
Proof.
  intros H. apply simulate_impact_Ok_inv in H. destruct H as (_ & _ & ->).
  cbn [impact_record res_affected_areas_km2 zones_map
       lethal_m severe_m moderate_m].
  set (E := impact_energy d v rho).
  destruct (damage_radii_value_ordered E) as [Hls Hsm].
  pose proof (damage_radii_value_nonneg E) as H0.
  split; [| split].
  - unfold area_from_radius_m.
    pose proof math_pi_bounds as HPI.
    assert (0 <= lethal_m (damage_radii_value E) ^ 2) by apply pow2_ge_0.
    apply Rmult_le_pos; [apply Rmult_le_pos; lra |].
    left. apply Rinv_0_lt_compat. lra.
  - apply area_from_radius_m_le. lra.
  - apply area_from_radius_m_le. lra.
Qed.

(** X2.  In every result of [simulate_impact] each affected area is
    [pi * r^2 / 1e6] of the radius of the same zone, and the areas are
    ordered like the radii: lethal <= severe <= moderate, none negative. *)
Theorem affected_areas_ordered
    (d v rho a : R) (la lo : option R) (r : ImpactResult) :
  simulate_impact d v rho a la lo = Ok r ->
  lethal_m (res_affected_areas_km2 r) =
    math_pi * lethal_m (res_damage_radii_m r) ^ 2 / 10 ^ 6 /\
  severe_m (res_affected_areas_km2 r) =
    math_pi * severe_m (res_damage_radii_m r) ^ 2 / 10 ^ 6 /\
  moderate_m (res_affected_areas_km2 r) =
    math_pi * moderate_m (res_damage_radii_m r) ^ 2 / 10 ^ 6 /\
  0 <= lethal_m (res_affected_areas_km2 r) /\
  radii_ordered (res_affected_areas_km2 r).
Proof.
  intros H.
  destruct (areas_of_result_ordered d v rho a la lo r H) as (H0 & Hls & Hsm).
  apply simulate_impact_Ok_inv in H. destruct H as (_ & _ & ->).
  repeat split; try reflexivity; assumption.
Qed.

Lemma affected_areas_ordered_witness :
  radii_ordered (res_affected_areas_km2 reference_impact).
Proof.
  apply (affected_areas_ordered 50 20000 3000 45 None None reference_impact
           reference_impact_simulated).
Defined.

(** ** What every result satisfies *)

(** X3.  In every result of [simulate_impact], [energy_joules] is
    [0.5 * mass_kg * velocity^2], [energy_megatons] is
    [energy_joules / 4.184e15], the crater is at least 1 m and no radius is
    negative; for inputs of ordinary size the energy is positive and the
    radii are at least their floors of 5, 10 and 20 m. *)
Theorem result_invariants
    (d v rho a : R) (la lo : option R) (r : ImpactResult) :
  simulate_impact d v rho a la lo = Ok r ->
  res_energy_joules r = 5 / 10 * res_mass_kg r * v ^ 2 /\
  res_energy_megatons r = res_energy_joules r / JOULES_PER_MEGATON_TNT /\
  1 <= res_crater_diameter_m r /\
  0 <= lethal_m (res_damage_radii_m r) /\
  0 <= severe_m (res_damage_radii_m r) /\
  0 <= moderate_m (res_damage_radii_m r) /\
  (ordinary_input d v rho a ->
   0 < res_energy_joules r /\
   5 <= lethal_m (res_damage_radii_m r) /\
   10 <= severe_m (res_damage_radii_m r) /\
   20 <= moderate_m (res_damage_radii_m r)).
Proof.
  intros H. apply simulate_impact_Ok_inv in H. destruct H as (_ & _ & ->).
  cbn [impact_record res_energy_joules res_mass_kg res_energy_megatons
       res_crater_diameter_m res_damage_radii_m].
  pose proof (damage_radii_value_ordered (impact_energy d v rho)) as [Hls Hsm].
  pose proof (damage_radii_value_nonneg (impact_energy d v rho)) as H0.
  split; [reflexivity |]. split; [reflexivity |].
  split; [apply crater_value_floor_le |].
  split; [exact H0 |]. split; [lra |]. split; [lra |].
  intros Hord. pose proof (ordinary_energy_pos _ _ _ _ Hord) as HE.
  split; [exact HE |].
  rewrite (damage_radii_value_pos _ HE). cbn [lethal_m severe_m moderate_m].
  repeat split; apply Rmax_l.
Qed.

Lemma result_invariants_witness :
  1 <= res_crater_diameter_m reference_impact /\
  0 < res_energy_joules reference_impact /\
  5 <= lethal_m (res_damage_radii_m reference_impact).
Proof.
  destruct (result_invariants 50 20000 3000 45 None None reference_impact
              reference_impact_simulated) as (_ & _ & HC & _ & _ & _ & Hord).
  destruct (Hord reference_ordinary) as (HE & HL & _).
  repeat split; assumption.
Defined.

(** X4.  The sign of the velocity is lost: [simulate_impact] gives the same
    numeric outputs (or raises the same exception) for [-v] as for [v]. *)
Theorem velocity_sign_ignored (d v rho a : R) (la lo : option R) :
  result_map numeric_outputs (simulate_impact d (- v) rho a la lo) =
  result_map numeric_outputs (simulate_impact d v rho a la lo).
Proof.
  unfold simulate_impact.
  destruct (mass_from_diameter d rho) as [m | e]; cbn [bind result_map];
    [| reflexivity].
  assert (HE : kinetic_energy_joules m (- v) = kinetic_energy_joules m v).
  { unfold kinetic_energy_joules.
    replace ((- v) ^ 2) with (v ^ 2) by ring.
    unfold float_pow_int. replace ((- v) ^ 2) with (v ^ 2) by ring.
    reflexivity. }
  rewrite HE.
  destruct (kinetic_energy_joules m v) as [E | e]; cbn [bind result_map];
    [| reflexivity].
  destruct (estimate_crater_diameter _ _ _ _) as [c | e]; cbn [bind result_map];
    [| reflexivity].
  destruct (estimate_damage_radii _) as [z | e]; reflexivity.
Qed.

(** ** Monotonicity in the diameter *)

Lemma cube_lt (x y : R) : 0 < x < y -> x ^ 3 < y ^ 3.
Proof.
  intros [Hx Hxy].
  assert (Hsq : x ^ 2 < y ^ 2) by nra.
  assert (Hpos : 0 < x ^ 2) by (apply pow_lt; exact Hx).
  nra.
Qed.

Lemma sphere_mass_lt (d1 d2 rho : R) :
  0 < d1 < d2 -> 0 < rho -> sphere_mass d1 rho < sphere_mass d2 rho.
Proof.
  intros Hd Hrho. unfold sphere_mass. pose proof math_pi_bounds as HPI.
  assert (Hr : (d1 / 2) ^ 3 < (d2 / 2) ^ 3) by (apply cube_lt; lra).
  apply Rmult_lt_compat_l; [lra |].
  apply Rmult_lt_compat_l; [lra | exact Hr].
Qed.

Lemma impact_energy_diameter_lt (d1 d2 v rho : R) :
  0 < d1 < d2 -> 0 < v -> 0 < rho ->
  impact_energy d1 v rho < impact_energy d2 v rho.
Proof.
  intros Hd Hv Hrho. unfold impact_energy.
  pose proof (sphere_mass_lt d1 d2 rho Hd Hrho) as Hm.
  assert (Hv2 : 0 < v ^ 2) by (apply pow_lt; exact Hv).
  apply Rmult_lt_compat_r; [exact Hv2 |]. lra.
Qed.

(** X5.  For inputs of ordinary size that agree on velocity, density and
    angle, a strictly larger diameter gives a mass, an [energy_joules], an
    [energy_megatons], a crater and damage radii that are not smaller; when
    the diameters differ by at least one part in a million, the mass and the
    two energies are strictly larger. *)
Theorem diameter_monotone
    (d1 d2 v rho a : R) (la1 lo1 la2 lo2 : option R) :
  ordinary_input d1 v rho a -> ordinary_input d2 v rho a -> d1 < d2 ->
  exists r1 r2,
    simulate_impact d1 v rho a la1 lo1 = Ok r1 /\
    simulate_impact d2 v rho a la2 lo2 = Ok r2 /\
    res_mass_kg r1 <= res_mass_kg r2 /\
    res_energy_joules r1 <= res_energy_joules r2 /\
    res_energy_megatons r1 <= res_energy_megatons r2 /\
    res_crater_diameter_m r1 <= res_crater_diameter_m r2 /\
    zones_le (res_damage_radii_m r1) (res_damage_radii_m r2) /\
    (d1 * (1 + 1 / 10 ^ 6) <= d2 ->
     res_mass_kg r1 < res_mass_kg r2 /\
     res_energy_joules r1 < res_energy_joules r2 /\
     res_energy_megatons r1 < res_energy_megatons r2).
Proof.
  intros Hord1 Hord2 Hd.
  exists (impact_record d1 v rho a la1 lo1), (impact_record d2 v rho a la2 lo2).
  split; [apply simulate_impact_ordinary, Hord1 |].
  split; [apply simulate_impact_ordinary, Hord2 |].
  pose proof (ordinary_energy_pos _ _ _ _ Hord1) as HE1.
  destruct Hord1 as (Hd1 & Hv & Hrho & Ha).
  assert (Hm : sphere_mass d1 rho < sphere_mass d2 rho)
    by (apply sphere_mass_lt; lra).
  assert (HE : impact_energy d1 v rho < impact_energy d2 v rho)
    by (apply impact_energy_diameter_lt; lra).
  cbn [impact_record res_mass_kg res_energy_joules res_energy_megatons
       res_crater_diameter_m res_damage_radii_m].
  split; [lra |]. split; [lra |].
  split; [apply energy_megatons_le; lra |].
  split; [apply crater_value_le; lra |].
  split; [apply damage_radii_value_le; lra |].
  intros _. split; [exact Hm |]. split; [exact HE |].
  apply energy_megatons_lt, HE.
Qed.

Lemma diameter_monotone_witness :
  exists r1 r2,
    simulate_impact 50 20000 3000 45 None None = Ok r1 /\
    simulate_impact 100 20000 3000 45 None None = Ok r2 /\
    res_mass_kg r1 < res_mass_kg r2 /\
    res_energy_joules r1 < res_energy_joules r2.
Proof.
  destruct (diameter_monotone 50 100 20000 3000 45 None None None None)
    as (r1 & r2 & H1 & H2 & _ & _ & _ & _ & _ & Hstrict);
    try (unfold ordinary_input; lra).
  destruct Hstrict as (HM & HE & _); [lra |].
  exists r1, r2. repeat split; assumption.
Defined.

(** * Further properties of the mitigation operators *)

(** ** Results can be fed back *)

Lemma simulate_impact_simulated (d v rho a : R) (la lo : option R)
    (r : ImpactResult) :
  simulate_impact d v rho a la lo = Ok r -> simulated r.
Proof.
  intros H. pose proof H as H'.
  apply simulate_impact_Ok_inv in H'. destruct H' as (_ & _ & Heq).
  unfold simulated, simulate_input.
  pose proof (f_equal res_input Heq) as Hin.
  cbn [impact_record res_input] in Hin. rewrite Hin.
  cbn [diameter_m velocity_m_s density_kg_m3 impact_angle_deg lat lon].
  exact H.
Qed.

(** X7.  Simulating again the input stored in a result of [simulate_impact]
    gives that same result; and whatever a mitigation operator returns is
    such a result, so that operators can be applied one after another. *)
Theorem results_are_simulated :
  (forall (d v rho a : R) (la lo : option R) (r : ImpactResult),
     simulate_impact d v rho a la lo = Ok r ->
     simulate_input (res_input r) = Ok r) /\
  (forall (prior r : ImpactResult) (pct : R),
     apply_kinetic_impactor prior pct = Ok r ->
     simulate_input (res_input r) = Ok r) /\
  (forall (prior r : ImpactResult) (pct : R),
     apply_nuclear_deflection prior pct = Ok r ->
     simulate_input (res_input r) = Ok r) /\
  (forall (prior r : ImpactResult) (n : Z),
     apply_fragmentation prior n = Ok r ->
     simulate_input (res_input r) = Ok r).
Proof.
  split; [| split; [| split]].
  - intros d v rho a la lo r H.
    exact (simulate_impact_simulated _ _ _ _ _ _ _ H).
  - intros prior r pct H. unfold apply_kinetic_impactor in H.
    exact (simulate_impact_simulated _ _ _ _ _ _ _ H).
  - intros prior r pct H. unfold apply_nuclear_deflection in H.
    rewrite math_sqrt_nonneg in H by apply Rmax_l. cbn [bind] in H.
    exact (simulate_impact_simulated _ _ _ _ _ _ _ H).
  - intros prior r n H. apply apply_fragmentation_Ok_inv in H.
    destruct H as [_ H].
    exact (simulate_impact_simulated _ _ _ _ _ _ _ H).
Qed.

Lemma results_are_simulated_witness :
  simulate_input (res_input reference_impact) = Ok reference_impact /\
  exists r, apply_kinetic_impactor reference_impact 20 = Ok r /\
    simulate_input (res_input r) = Ok r.
Proof.
  destruct results_are_simulated as (Hsim & Hkin & _).
  split.
  - exact (Hsim 50 20000 3000 45 None None reference_impact
             reference_impact_simulated).
  - eexists. split.
    + apply apply_kinetic_impactor_value;
        [exact reference_impact_is_simulated | lra].
    + eapply Hkin. apply apply_kinetic_impactor_value;
        [exact reference_impact_is_simulated | lra].
Defined.

(** ** Mitigation does not make things worse *)

(** A re-simulation of the prior's body and angle with less energy. *)
Lemma no_worse_than_prior (prior : ImpactResult) (d' v' : R)
    (la lo : option R) :
  simulated prior ->
  0 <= impact_energy d' v' (density_kg_m3 (res_input prior))
    <= res_energy_joules prior ->
  let r := impact_record d' v' (density_kg_m3 (res_input prior))
             (impact_angle_deg (res_input prior)) la lo in
  res_energy_joules r <= res_energy_joules prior /\
  res_crater_diameter_m r <= res_crater_diameter_m prior /\
  zones_le (res_damage_radii_m r) (res_damage_radii_m prior).
Proof.
  intros Hsim HE r. subst r.
  destruct (simulated_fields prior Hsim) as (_ & Hc & Hz).
  rewrite Hc, Hz.
  cbn [impact_record res_energy_joules res_crater_diameter_m
       res_damage_radii_m].
  split; [lra |]. split.
  - apply crater_value_le. exact HE.
  - apply damage_radii_value_le. lra.
Qed.

Lemma cube_of_cube_root (x : R) : 0 < x -> Rpower x (1 / 3) ^ 3 = x.
Proof.
  intros Hx.
  rewrite <- Rpower_pow by apply Rpower_pos.
  rewrite Rpower_mult.
  replace (1 / 3 * INR 3) with 1 by (simpl; field).
  apply Rpower_1, Hx.
Qed.

(** The energy of the representative fragment. *)
Lemma fragment_energy (d v rho : R) (n : Z) :
  (1 <= n)%Z ->
  impact_energy (d / Rpower (IZR n) (1 / 3)) (v * (1 / sqrt (IZR n))) rho
    * IZR n ^ 2 = impact_energy d v rho.
Proof.
  intros Hn. assert (Hpos : 0 < IZR n) by (apply IZR_lt; lia).
  pose proof (cube_of_cube_root (IZR n) Hpos) as Hc.
  pose proof (Rpower_pos (IZR n) (1 / 3)) as Hc0.
  assert (Hs : sqrt (IZR n) ^ 2 = IZR n) by (apply pow2_sqrt; lra).
  assert (Hs0 : 0 < sqrt (IZR n)) by (apply sqrt_lt_R0, Hpos).
  set (c := Rpower (IZR n) (1 / 3)) in *.
  set (s := sqrt (IZR n)) in *.
  rewrite impact_energy_scale_velocity, impact_energy_scale_diameter by lra.
  rewrite Hc.
  replace ((1 / s) ^ 2) with (/ s ^ 2) by (field; lra).
  rewrite Hs. field. lra.
Qed.

(** X9.  On a simulated prior of ordinary size no operator increases the
    energy, the crater diameter or any damage radius: the kinetic impactor
    for a percentage in [0, 200], the nuclear deflection for any percentage
    that is not negative, fragmentation for any count from 1 up to the
    largest [int] that converts to a float. *)
Theorem mitigation_never_worse (prior : ImpactResult) :
  simulated prior -> ordinary (res_input prior) ->
  (forall pct : R, 0 <= pct <= 200 ->
     exists r, apply_kinetic_impactor prior pct = Ok r /\
       res_energy_joules r <= res_energy_joules prior /\
       res_crater_diameter_m r <= res_crater_diameter_m prior /\
       zones_le (res_damage_radii_m r) (res_damage_radii_m prior)) /\
  (forall pct : R, 0 <= pct ->
     exists r, apply_nuclear_deflection prior pct = Ok r /\
       res_energy_joules r <= res_energy_joules prior /\
       res_crater_diameter_m r <= res_crater_diameter_m prior /\
       zones_le (res_damage_radii_m r) (res_damage_radii_m prior)) /\
  (forall n : Z, (1 <= n < DBL_OVERFLOW_Z)%Z ->
     exists r, apply_fragmentation prior n = Ok r /\
       res_energy_joules r <= res_energy_joules prior /\
       res_crater_diameter_m r <= res_crater_diameter_m prior /\
       zones_le (res_damage_radii_m r) (res_damage_radii_m prior)).
Proof.
  intros Hsim _.
  destruct (simulated_inv prior Hsim) as ((HE0 & _) & HE & _).
  split; [| split].
  - intros pct Hpct. eexists. split.
    + apply apply_kinetic_impactor_value; [exact Hsim | exact Hpct].
    + apply (no_worse_than_prior prior _ _ _ _ Hsim).
      rewrite impact_energy_scale_velocity, <- HE.
      assert (Hk : 0 <= (1 - pct / 100) ^ 2 <= 1).
      { assert (Hb : -1 <= 1 - pct / 100 <= 1) by lra.
        set (k := 1 - pct / 100) in *.
        replace (k ^ 2) with (k * k) by ring. split; nra. }
      split; nra.
  - intros pct Hpct. eexists. split.
    + apply apply_nuclear_deflection_value; [exact Hsim | exact Hpct].
    + apply (no_worse_than_prior prior _ _ _ _ Hsim).
      rewrite impact_energy_scale_velocity, <- HE.
      rewrite pow2_sqrt by apply Rmax_l.
      assert (Hk : 0 <= Rmax 0 (1 - pct / 100) <= 1).
      { split; [apply Rmax_l | apply Rmax_lub; lra]. }
      split; nra.
  - intros n Hn. eexists. split.
    + apply apply_fragmentation_value; [exact Hsim | exact Hn].
    + apply (no_worse_than_prior prior _ _ _ _ Hsim).
      pose proof (fragment_energy (diameter_m (res_input prior))
                    (velocity_m_s (res_input prior))
                    (density_kg_m3 (res_input prior)) n (proj1 Hn)) as Hen.
      rewrite <- HE in Hen. clear HE.
      assert (Hn2 : 1 <= IZR n ^ 2).
      { assert (1 <= IZR n) by (apply IZR_le; lia). nra. }
      set (E' := impact_energy _ _ _) in *.
      assert (HE' : 0 <= E').
      { destruct (Rle_dec 0 E') as [H | H]; [exact H |]. exfalso. nra. }
      split; [exact HE' | nra].
Qed.

Lemma mitigation_never_worse_witness :
  (exists r, apply_kinetic_impactor reference_impact 20 = Ok r /\
     res_crater_diameter_m r <= res_crater_diameter_m reference_impact) /\
  (exists r, apply_nuclear_deflection reference_impact 60 = Ok r /\
     res_crater_diameter_m r <= res_crater_diameter_m reference_impact) /\
  (exists r, apply_fragmentation reference_impact 4 = Ok r /\
     res_crater_diameter_m r <= res_crater_diameter_m reference_impact).
Proof.
  destruct (mitigation_never_worse reference_impact
              reference_impact_is_simulated reference_impact_ordinary)
    as (Hk & Hn & Hf).
  split; [| split].
  - destruct (Hk 20) as (r & Hr & _ & Hc & _); [lra |].
    exists r. split; assumption.
  - destruct (Hn 60) as (r & Hr & _ & Hc & _); [lra |].
    exists r. split; assumption.
  - destruct (Hf 4%Z) as (r & Hr & _ & Hc & _).
    + split; [lia | apply small_count_in_range; lia].
    + exists r. split; assumption.
Defined.

(** ** Kinetic impactor against nuclear deflection *)

(** X12.  For the same percentage from 1 to 99 on a simulated prior of
    ordinary size, the kinetic impactor leaves strictly less energy than
    the nuclear deflection, which leaves strictly less than the prior. *)
Theorem kinetic_below_nuclear (prior : ImpactResult) (pct : R) :
  simulated prior -> ordinary (res_input prior) -> 1 <= pct <= 99 ->
  exists rk rn,
    apply_kinetic_impactor prior pct = Ok rk /\
    apply_nuclear_deflection prior pct = Ok rn /\
    res_energy_joules rk < res_energy_joules rn /\
    res_energy_joules rn < res_energy_joules prior.
Proof.
  intros Hsim Hord Hpct.
  destruct (simulated_inv prior Hsim) as (_ & Heq & _).
  assert (HE : 0 < res_energy_joules prior).
  { rewrite Heq. apply (ordinary_energy_pos _ _ _ _ Hord). }
  eexists. eexists.
  split; [apply apply_kinetic_impactor_value; [exact Hsim | lra] |].
  split; [apply apply_nuclear_deflection_value; [exact Hsim | lra] |].
  cbn [impact_record res_energy_joules].
  rewrite !impact_energy_scale_velocity, <- Heq.
  rewrite Rmax_right by lra. rewrite pow2_sqrt by lra.
  set (k := 1 - pct / 100).
  assert (Hk : 0 < k < 1) by (unfold k; lra).
  replace (k ^ 2) with (k * k) by ring.
  set (E := res_energy_joules prior) in *.
  split.
  - apply Rmult_lt_compat_l; [exact HE | nra].
  - rewrite <- (Rmult_1_r E) at 2.
    apply Rmult_lt_compat_l; [exact HE | lra].
Qed.

Lemma kinetic_below_nuclear_witness :
  exists rk rn,
    apply_kinetic_impactor reference_impact 50 = Ok rk /\
    apply_nuclear_deflection reference_impact 50 = Ok rn /\
    res_energy_joules rk < res_energy_joules rn /\
    res_energy_joules rn < res_energy_joules reference_impact.
Proof.
  apply (kinetic_below_nuclear reference_impact 50).
  - exact reference_impact_is_simulated.
  - exact reference_impact_ordinary.
  - lra.
Defined.

(** ** A reduction of zero *)

(** X13.  A reduction of 0 percent changes nothing: on a simulated prior
    the kinetic impactor and the nuclear deflection with 0 return the prior
    itself. *)
Theorem zero_reduction_identity (prior : ImpactResult) :
  simulated prior ->
  apply_kinetic_impactor prior 0 = Ok prior /\
  apply_nuclear_deflection prior 0 = Ok prior.
Proof.
  intros Hsim. pose proof (simulated_eq prior Hsim) as Heq.
  rewrite (apply_kinetic_impactor_value prior Hsim) by lra.
  rewrite (apply_nuclear_deflection_value prior Hsim) by lra.
  split; f_equal; rewrite Heq at 7; apply impact_record_eq;
    try reflexivity.
  - field.
  - replace (Rmax 0 (1 - 0 / 100)) with 1 by (rewrite Rmax_right; lra).
    rewrite sqrt_1. ring.
Qed.

Lemma zero_reduction_identity_witness :
  apply_kinetic_impactor reference_impact 0 = Ok reference_impact /\
  apply_nuclear_deflection reference_impact 0 = Ok reference_impact.
Proof.
  exact (zero_reduction_identity reference_impact reference_impact_is_simulated).
Defined.

(** * Presentation helpers and the run block *)

(** ** Population estimate *)



(** ** Table rows *)

Lemma cell_of_optional_inj (x y : option R) :
  cell_of_optional x = cell_of_optional y -> x = y.
Proof.
  destruct x, y; cbn; intros H; try discriminate; try reflexivity.
  injection H as ->. reflexivity.
Qed.

(** X15.  [results_to_dataframe] never misses a key and always builds one
    row of 17 columns in this order, whatever the result and the label, so
    the frames of two scenarios can be stacked: the label, the four numeric
    inputs, the mass, the two energies, the crater diameter, then for each
    zone in the order lethal, severe, moderate its radius and its area
    under the names [<key>_radius_m] and [<key>_area_km2], then [lat] and
    [lon], which are missing cells when the input has [None]. *)
Theorem results_to_dataframe_columns (sim_result : ImpactResult) (label : string) :
  results_to_dataframe sim_result label =
    Some [[("scenario", Text label);
           ("diameter_m", Number (diameter_m (res_input sim_result)));
           ("velocity_m_s", Number (velocity_m_s (res_input sim_result)));
           ("density_kg_m3", Number (density_kg_m3 (res_input sim_result)));
           ("impact_angle_deg",
            Number (impact_angle_deg (res_input sim_result)));
           ("mass_kg", Number (res_mass_kg sim_result));
           ("energy_joules", Number (res_energy_joules sim_result));
           ("energy_megatons", Number (res_energy_megatons sim_result));
           ("crater_diameter_m", Number (res_crater_diameter_m sim_result));
           ("lethal_m_radius_m",
            Number (lethal_m (res_damage_radii_m sim_result)));
           ("lethal_m_area_km2",
            Number (lethal_m (res_affected_areas_km2 sim_result)));
           ("severe_m_radius_m",
            Number (severe_m (res_damage_radii_m sim_result)));
           ("severe_m_area_km2",
            Number (severe_m (res_affected_areas_km2 sim_result)));
           ("moderate_m_radius_m",
            Number (moderate_m (res_damage_radii_m sim_result)));
           ("moderate_m_area_km2",
            Number (moderate_m (res_affected_areas_km2 sim_result)));
           ("lat", cell_of_optional (lat (res_input sim_result)));
           ("lon", cell_of_optional (lon (res_input sim_result)))]%string].
Proof.
  reflexivity.
Qed.

(** X16.  The row keeps everything: two calls of [results_to_dataframe]
    that build the same frame were given the same label and the same
    result. *)
Theorem results_to_dataframe_injective
    (r1 r2 : ImpactResult) (label1 label2 : string) :
  results_to_dataframe r1 label1 = results_to_dataframe r2 label2 ->
  label1 = label2 /\ r1 = r2.
Proof.
  destruct r1 as [[d1 v1 rho1 a1 la1 lo1] m1 e1 mt1 c1 [l1 s1 q1] [al1 as1 aq1]].
  destruct r2 as [[d2 v2 rho2 a2 la2 lo2] m2 e2 mt2 c2 [l2 s2 q2] [al2 as2 aq2]].
  unfold results_to_dataframe.
  cbn. intros H. injection H as H.
  repeat match goal with
         | H : _ :: _ = _ :: _ |- _ => injection H as ? H
         | H : (_, _) = (_, _) |- _ => injection H as ? ?
         | H : Number _ = Number _ |- _ => injection H as ?
         | H : Text _ = Text _ |- _ => injection H as ?
         end.
  repeat match goal with
         | H : cell_of_optional _ = cell_of_optional _ |- _ =>
             apply cell_of_optional_inj in H
         end.
  subst. split; reflexivity.
Qed.

Lemma results_to_dataframe_injective_witness :
  "before"%string = "before"%string /\ reference_impact = reference_impact.
Proof.
  apply (results_to_dataframe_injective reference_impact reference_impact
           "before" "before").
  reflexivity.
Defined.

(** ** The map *)

(** X17.  [create_folium_map] always draws five layers, the impact marker,
    the lethal, severe and moderate circles with these radii and their own
    colours (never the fallback colour), and the crater circle of radius
    [max(1, crater_diameter_m / 2)], all centred where the map is centred.
    The map is centred on the impact at zoom 5 when both coordinates are
    present; if either is [None] both are replaced by 0.0 and the zoom
    is 2. *)
Theorem create_folium_map_layers
    (sim_result : ImpactResult) (map_tiles : string) (popup : bool) :
  let m := create_folium_map sim_result map_tiles popup in
  (map_location m, map_zoom_start m) =
    match lat (res_input sim_result), lon (res_input sim_result) with
    | Some la, Some lo => ((la, lo), 5%Z)
    | _, _ => ((0, 0), 2%Z)
    end /\
  Forall (fun l => layer_location l = map_location m) (map_layers m) /\
  map layer_radius (map_layers m) =
    [5; lethal_m (res_damage_radii_m sim_result);
     severe_m (res_damage_radii_m sim_result);
     moderate_m (res_damage_radii_m sim_result);
     Rmax 1 (res_crater_diameter_m sim_result / 2)] /\
  1 <= Rmax 1 (res_crater_diameter_m sim_result / 2) /\
  (exists marker lethal severe moderate crater,
     map_layers m =
       [marker; Circle (map_location m) lethal "#800000" (25 / 100)
                  (if popup then Some (ZonePopup "lethal_m" lethal) else None);
        Circle (map_location m) severe "#FF4500" (25 / 100)
          (if popup then Some (ZonePopup "severe_m" severe) else None);
        Circle (map_location m) moderate "#FFA500" (25 / 100)
          (if popup then Some (ZonePopup "moderate_m" moderate) else None);
        crater]).
Proof.
  unfold create_folium_map.
  destruct (lat (res_input sim_result)) as [la |];
    destruct (lon (res_input sim_result)) as [lo |];
    cbn; (split; [reflexivity |]);
    (split; [repeat constructor |]);
    (split; [reflexivity |]);
    (split; [apply Rmax_l |]);
    do 5 eexists; reflexivity.
Qed.

(** ** The run block *)

Lemma widget_ranges_ordinary (diameter velocity density : R) (angle : Z) :
  1 / 10 <= diameter <= 10 ^ 7 -> 1 <= velocity <= 10 ^ 6 ->
  500 <= density <= 10 ^ 6 -> (15 <= angle <= 90)%Z ->
  ordinary_input diameter (velocity * 1000) density (IZR angle).
Proof.
  intros Hd Hv Hrho [Ha1 Ha2]. unfold ordinary_input.
  apply IZR_le in Ha1. apply IZR_le in Ha2. lra.
Qed.

(** X18.  With every widget inside its range (diameter from 0.1 m, velocity
    from 1 km/s, density from 500, angle 15..90, reductions 1..99, fragment
    count 2..50) and the three unbounded number inputs of ordinary size
    (diameter up to 1e7 m, velocity up to 1e6 km/s, density up to 1e6) the
    run block raises nothing: [sim_before] is the simulation at
    [velocity * 1000] m/s with a positive energy, [sim_after] is [None]
    exactly when the choice is none of the three strategies, and otherwise
    it has strictly less energy than [sim_before] at the same site. *)
Theorem run_simulation_in_widget_ranges
    (diameter velocity density : R) (angle : Z) (lat lon : R)
    (mitigation_choice : string) (kin_reduce nuc_reduce frag_count : Z) :
  1 / 10 <= diameter <= 10 ^ 7 -> 1 <= velocity <= 10 ^ 6 ->
  500 <= density <= 10 ^ 6 ->
  (15 <= angle <= 90)%Z ->
  (1 <= kin_reduce <= 99)%Z -> (1 <= nuc_reduce <= 99)%Z ->
  (2 <= frag_count <= 50)%Z ->
  exists sim_before sim_after,
    run_simulation diameter velocity density angle lat lon mitigation_choice
      kin_reduce nuc_reduce frag_count = Ok (sim_before, sim_after) /\
    simulate_impact diameter (velocity * 1000) density (IZR angle)
      (Some lat) (Some lon) = Ok sim_before /\
    0 < res_energy_joules sim_before /\
    (sim_after = None <->
     ~ In mitigation_choice
         ["Kinetic Impactor (reduce velocity %)"; "Nuclear (reduce energy %)";
          "Fragmentation (split)"]%string) /\
    (forall r, sim_after = Some r ->
       res_energy_joules r < res_energy_joules sim_before /\
       same_site (res_input sim_before) (res_input r)).
Proof.
  intros Hd Hv Hrho Ha Hkin Hnuc Hfrag.
  pose proof (widget_ranges_ordinary _ _ _ _ Hd Hv Hrho Ha) as Hord.
  pose proof (simulate_impact_ordinary _ _ _ _ (Some lat) (Some lon) Hord)
    as Hbefore.
  set (before := impact_record diameter (velocity * 1000) density (IZR angle)
                   (Some lat) (Some lon)) in *.
  assert (Hsim : simulated before)
    by exact (simulate_impact_simulated _ _ _ _ _ _ _ Hbefore).
  assert (HE : 0 < res_energy_joules before).
  { subst before. cbn [impact_record res_energy_joules].
    apply (ordinary_energy_pos _ _ _ _ Hord). }
  clearbody before.
  destruct (simulated_inv before Hsim) as (_ & HEeq & _).
  unfold run_simulation. rewrite Hbefore. cbn [bind].
  destruct (String.eqb_spec mitigation_choice "None") as [Hnone | Hnone].
  { exists before, None.
    repeat split; try assumption; try reflexivity; try discriminate.
    intros _ Hin. subst mitigation_choice. cbn in Hin.
    intuition discriminate. }
  destruct (String.eqb_spec mitigation_choice
              "Kinetic Impactor (reduce velocity %)") as [Hk | Hk].
  { destruct Hkin as [Hk1 Hk2]. apply IZR_le in Hk1. apply IZR_le in Hk2.
    rewrite (apply_kinetic_impactor_value before Hsim) by lra. cbn [bind].
    eexists. eexists. split; [reflexivity |].
    split; [reflexivity |]. split; [exact HE |]. split.
    - split; [discriminate |]. intros Hn. exfalso. apply Hn. left.
      symmetry. exact Hk.
    - intros r Hr. injection Hr as <-.
      cbn [impact_record res_energy_joules res_input].
      rewrite impact_energy_scale_velocity, <- HEeq.
      split; [| unfold same_site; cbn; repeat split; reflexivity].
      set (k := 1 - IZR kin_reduce / 100).
      assert (Hkk : 0 < k < 1) by (unfold k; lra).
      replace (k ^ 2) with (k * k) by ring.
      rewrite <- (Rmult_1_r (res_energy_joules before)) at 2.
      apply Rmult_lt_compat_l; [exact HE | nra]. }
  destruct (String.eqb_spec mitigation_choice "Nuclear (reduce energy %)")
    as [Hn | Hn].
  { destruct Hnuc as [Hn1 Hn2]. apply IZR_le in Hn1. apply IZR_le in Hn2.
    rewrite (apply_nuclear_deflection_value before Hsim) by lra. cbn [bind].
    eexists. eexists. split; [reflexivity |].
    split; [reflexivity |]. split; [exact HE |]. split.
    - split; [discriminate |]. intros Hc. exfalso. apply Hc. right. left.
      symmetry. exact Hn.
    - intros r Hr. injection Hr as <-.
      cbn [impact_record res_energy_joules res_input].
      rewrite impact_energy_scale_velocity, <- HEeq.
      split; [| unfold same_site; cbn; repeat split; reflexivity].
      rewrite Rmax_right by lra. rewrite pow2_sqrt by lra.
      rewrite <- (Rmult_1_r (res_energy_joules before)) at 2.
      apply Rmult_lt_compat_l; [exact HE | lra]. }
  destruct (String.eqb_spec mitigation_choice "Fragmentation (split)")
    as [Hf | Hf].
  { assert (Hn1 : (1 <= frag_count < DBL_OVERFLOW_Z)%Z).
    { split; [lia | apply small_count_in_range; lia]. }
    rewrite (apply_fragmentation_value before Hsim frag_count Hn1).
    cbn [bind].
    eexists. eexists. split; [reflexivity |].
    split; [reflexivity |]. split; [exact HE |]. split.
    - split; [discriminate |]. intros Hc. exfalso. apply Hc. right. right.
      left. symmetry. exact Hf.
    - intros r Hr. injection Hr as <-.
      cbn [impact_record res_energy_joules res_input].
      split; [| unfold same_site; cbn; repeat split; reflexivity].
      pose proof (fragment_energy (diameter_m (res_input before))
                    (velocity_m_s (res_input before))
                    (density_kg_m3 (res_input before)) frag_count
                    (proj1 Hn1)) as Hen.
      rewrite <- HEeq in Hen. clear HEeq.
      assert (H2 : 2 <= IZR frag_count) by (apply IZR_le; lia).
      assert (Hn2 : 1 < IZR frag_count ^ 2) by nra.
      set (E' := impact_energy _ _ _) in *.
      set (E := res_energy_joules before) in *.
      assert (HE' : 0 < E').
      { destruct (Rlt_dec 0 E') as [H | H]; [exact H |]. exfalso. nra. }
      nra. }
  exists before, None.
  repeat split; try assumption; try reflexivity; try discriminate.
  intros _ Hin. cbn in Hin.
  destruct Hin as [H | [H | [H | []]]]; symmetry in H; contradiction.
Qed.

Lemma run_simulation_in_widget_ranges_witness :
  exists sim_before sim_after,
    run_simulation 50 20 3000 45 0 0 "Nuclear (reduce energy %)" 20 60 4
      = Ok (sim_before, sim_after) /\
    0 < res_energy_joules sim_before /\
    exists r, sim_after = Some r /\
      res_energy_joules r < res_energy_joules sim_before.
Proof.
  destruct (run_simulation_in_widget_ranges 50 20 3000 45 0 0
              "Nuclear (reduce energy %)" 20 60 4)
    as (b & a & Hrun & _ & HE & Hnone & Hless); try lra; try lia.
  exists b, a. split; [exact Hrun |]. split; [exact HE |].
  destruct a as [r |].
  - exists r. split; [reflexivity |]. apply (Hless r). reflexivity.
  - exfalso. apply (proj1 Hnone); [reflexivity |]. cbn. tauto.
Defined.
